(** * msmbuilder project templates: the template-directory rendering engine

    A shallow embedding of [msmbuilder/io/project_template.py]:
    the metadata-extracting template loader, the [Template] record with its
    four writers, and the [TemplateDir] tree walk.

    Python strings are lists of characters, Python integers are [Z].
    Side effects (the file system, the process working directory, the
    loader's class-level [meta] dictionary) are threaded through a state
    monad whose computations may raise; an exception leaves every effect
    performed so far in place, as in Python. *)

From Stdlib Require Import ZArith Ascii String Lia.
From stdpp Require Import gmap strings list pretty.

Set Default Proof Using "Type".
Set Warnings "-register-all".

(** ** Python text *)

Module Py.

Definition pystr := list ascii.

Definition str (s : string) : pystr := list_ascii_of_string s.
Arguments str s%_string.

Definition nl : ascii := "010"%char.
Definition dq : ascii := "034"%char.

(** [a == b] on characters. *)
Definition chr_eqb (a b : ascii) : bool := Ascii.eqb a b.

(** [s.startswith(sub)] *)
Fixpoint startswith (sub s : pystr) : bool :=
  match sub, s with
  | [], _ => true
  | _ :: _, [] => false
  | a :: sub', b :: s' => chr_eqb a b && startswith sub' s'
  end.

(** Leftmost position at which [sub] occurs in [s]. *)
Fixpoint index_of (sub s : pystr) : option nat :=
  if startswith sub s then Some 0%nat
  else match s with
       | [] => None
       | _ :: s' => S <$> index_of sub s'
       end.

(** [s.find(sub)]: the leftmost index, or [-1]. *)
Definition find (s sub : pystr) : Z :=
  match index_of sub s with
  | Some i => Z.of_nat i
  | None => (-1)%Z
  end.

(** [len(s)] *)
Definition len {A} (s : list A) : Z := Z.of_nat (length s).

(** A slice bound as Python normalises it: a negative bound counts from
    the end, and every bound is clamped to [0 .. len s]. *)
Definition clamp_index {A} (s : list A) (i : Z) : nat :=
  Z.to_nat (if (i <? 0)%Z then Z.max 0 (i + len s) else Z.min i (len s)).

(** [s[lo:hi]]; [None] stands for an omitted bound. *)
Definition slice {A} (s : list A) (lo hi : option Z) : list A :=
  let l := from_option (clamp_index s) 0%nat lo in
  let h := from_option (clamp_index s) (length s) hi in
  take (h - l) (drop l s).

(** [s[::2]] *)
Fixpoint every_second {A} (s : list A) : list A :=
  match s with
  | [] => []
  | x :: s' => x :: match s' with
                    | [] => []
                    | _ :: s'' => every_second s''
                    end
  end.

(** [s[lo:hi:2]] *)
Definition slice2 {A} (s : list A) (lo hi : option Z) : list A :=
  every_second (slice s lo hi).

(** [s.replace(old, new)]: every non-overlapping occurrence, left to
    right.  [skip] counts the characters of a matched occurrence that are
    still to be passed over. *)
Fixpoint replace_from (old new : pystr) (skip : nat) (s : pystr) : pystr :=
  match s with
  | [] => match old with [] => new | _ => [] end
  | c :: s' =>
      match skip with
      | S k => replace_from old new k s'
      | O =>
          match old with
          | [] => new ++ c :: replace_from old new 0 s'
          | _ :: old' =>
              if startswith old s
              then new ++ replace_from old new (length old') s'
              else c :: replace_from old new 0 s'
          end
      end
  end.

Definition replace (s old new : pystr) : pystr := replace_from old new 0 s.

(** [str.isspace] on one character (code points below 256). *)
Definition isspace (c : ascii) : bool :=
  let n := nat_of_ascii c in
  ((9 <=? n) && (n <=? 13)) || ((28 <=? n) && (n <=? 32))
  || (n =? 133) || (n =? 160).

Fixpoint lstrip (s : pystr) : pystr :=
  match s with
  | c :: s' => if isspace c then lstrip s' else s
  | [] => []
  end.

Definition rstrip (s : pystr) : pystr := reverse (lstrip (reverse s)).

(** [s.strip()] *)
Definition strip (s : pystr) : pystr := rstrip (lstrip s).

(** [s.split(sep)] for a one-character separator; [cur] is the piece being
    collected. *)
Fixpoint split_from (sep : ascii) (cur s : pystr) : list pystr :=
  match s with
  | [] => [cur]
  | c :: s' =>
      if chr_eqb c sep then cur :: split_from sep [] s'
      else split_from sep (cur ++ [c]) s'
  end.

Definition split (s : pystr) (sep : ascii) : list pystr := split_from sep [] s.

(** [l[-1]] of a list that is known to be non-empty ([split] never returns
    the empty list). *)
Definition last_item (l : list pystr) : pystr := List.last l [].

(** [os.path.basename(p)]: what follows the last slash. *)
Definition basename (p : pystr) : pystr := last_item (split p "/"%char).

(** [sub in s] for strings. *)
Definition contains (s sub : pystr) : bool := bool_decide (find s sub ≠ (-1)%Z).

(** *** The heading pattern of the notebook writer

    [re.split] on the pattern "## ", a captured group of any characters,
    newline.  The pattern matches at a position when
    the text there starts with [## ] and the rest of that line is closed by
    a newline ([.] matches every character but the newline, so the group is
    the rest of the line).  [re.split] returns the pieces between the
    matches with the captured group after each piece. *)

Definition heading_mark : pystr := str "## ".

Fixpoint line_rest (s : pystr) : option pystr :=
  match s with
  | [] => None
  | c :: s' => if chr_eqb c nl then Some []
               else (fun t => c :: t) <$> line_rest s'
  end.

Definition match_heading (s : pystr) : option pystr :=
  if startswith heading_mark s then line_rest (drop 3 s) else None.

Fixpoint re_split_from (skip : nat) (cur s : pystr) : list pystr :=
  match s with
  | [] => [cur]
  | c :: s' =>
      match skip with
      | S k => re_split_from k cur s'
      | O =>
          match match_heading s with
          | Some title => cur :: title :: re_split_from (3 + length title) [] s'
          | None => re_split_from 0 (cur ++ [c]) s'
          end
      end
  end.

Definition re_split_heading (text : pystr) : list pystr :=
  re_split_from 0 [] text.

End Py.
Export Py.

(** ** Values and exceptions *)

(** What the YAML decoder can hand back for a metadata block: [None] for an
    empty document, a string, a number, a sequence, or a mapping with
    string keys.  The empty Python dictionary is [YMap []]. *)
Inductive yaml :=
| YNone
| YStr (s : pystr)
| YInt (z : Z)
| YSeq (items : list yaml)
| YMap (items : list (pystr * yaml)).

(** The hashable objects a Python [set] can hold here. *)
Inductive hashable :=
| HStr (s : pystr)
| HInt (z : Z)
| HNone.

Inductive exn :=
| TemplateNotFound
| TemplateSyntaxError
| UndefinedError
| YAMLError
| TypeError
| KeyError
| FileExistsError
| FileNotFoundError
| NotADirectoryError
| IsADirectoryError
| PermissionError
| OSError.

Inductive res (A : Type) :=
| Ok (a : A)
| Raise (e : exn).
Arguments Ok {A} a.
Arguments Raise {A} e.

Definition is_Ok {A} (r : res A) : bool :=
  match r with Ok _ => true | Raise _ => false end.

(** *** Python operators on a decoded metadata object *)

Fixpoint assoc (k : pystr) (items : list (pystr * yaml)) : option yaml :=
  match items with
  | [] => None
  | (k', v) :: items' => if bool_decide (k = k') then Some v else assoc k items'
  end.

Definition is_YStr (k : pystr) (v : yaml) : bool :=
  match v with YStr s => bool_decide (s = k) | _ => false end.

(** [key in obj] *)
Definition py_in (key : pystr) (obj : yaml) : res bool :=
  match obj with
  | YMap items => Ok (bool_decide (is_Some (assoc key items)))
  | YSeq items => Ok (existsb (is_YStr key) items)
  | YStr s => Ok (contains s key)
  | YNone | YInt _ => Raise TypeError
  end.

(** [obj[key]] for a string key *)
Definition py_getitem (obj : yaml) (key : pystr) : res yaml :=
  match obj with
  | YMap items => match assoc key items with Some v => Ok v | None => Raise KeyError end
  | _ => Raise TypeError
  end.

(** [hash(v)] succeeds *)
Definition py_hashable (v : yaml) : res hashable :=
  match v with
  | YStr s => Ok (HStr s)
  | YInt z => Ok (HInt z)
  | YNone => Ok HNone
  | YSeq _ | YMap _ => Raise TypeError
  end.

Fixpoint py_all_hashable (vs : list yaml) : res (list hashable) :=
  match vs with
  | [] => Ok []
  | v :: vs' =>
      match py_hashable v with
      | Raise e => Raise e
      | Ok h => match py_all_hashable vs' with
                | Raise e => Raise e
                | Ok hs => Ok (h :: hs)
                end
      end
  end.

(** The objects that [set.update(obj)] inserts, in insertion order:
    the items of a sequence, the characters of a string, the keys of a
    mapping. *)
Definition py_iter (obj : yaml) : res (list hashable) :=
  match obj with
  | YSeq items => py_all_hashable items
  | YStr s => Ok ((fun c => HStr [c]) <$> s)
  | YMap items => Ok ((fun kv => HStr kv.1) <$> items)
  | YNone | YInt _ => Raise TypeError
  end.

(** ** Notebook documents ([nbformat.v4]) *)

Inductive cell :=
| new_markdown_cell (source : pystr)
| new_code_cell (source : pystr).

Record kernelspec := { name : pystr; display_name : pystr }.

Record notebook := new_notebook { cells : list cell; metadata : kernelspec }.

(** What is written to a file: text as it is, or a notebook through
    [nbformat.write]. *)
Inductive content :=
| Text (s : pystr)
| Nbformat (nb : notebook).

(** ** The layout tree *)

Inductive TemplateDir :=
  mkTemplateDir { dir_name : pystr; files : list pystr; subdirs : list TemplateDir }.

Definition get_layout : TemplateDir :=
  let tica_msm :=
    mkTemplateDir (str "tica")
      [ str "tica/tica.py";
        str "tica/tica-plot.py";
        str "tica/tica-sample-coordinate.py";
        str "tica/tica-sample-coordinate-plot.py" ]
      [ mkTemplateDir (str "cluster")
          [ str "tica/cluster/cluster.py";
            str "tica/cluster/cluster-plot.py" ]
          [ mkTemplateDir (str "msm")
              [ str "tica/cluster/msm/msm-1-timescales.py";
                str "tica/cluster/msm/msm-1-timescales-plot.py";
                str "tica/cluster/msm/msm-2-microstate.py";
                str "tica/cluster/msm/msm-2-microstate-plot.py" ]
              [] ] ] in
  mkTemplateDir (str "")
    [ str "0-test-install.py";
      str "1-get-example-data.py";
      str "README.md" ]
    [ mkTemplateDir (str "analysis")
        [ str "analysis/gather-metadata.py";
          str "analysis/gather-metadata-plot.py" ]
        [ mkTemplateDir (str "rmsd")
            [ str "analysis/rmsd/rmsd.py";
              str "analysis/rmsd/rmsd-plot.py" ]
            [];
          mkTemplateDir (str "landmarks")
            [ str "analysis/landmarks/featurize.py";
              str "analysis/landmarks/featurize-plot.py" ]
            [tica_msm];
          mkTemplateDir (str "dihedrals")
            [ str "analysis/dihedrals/featurize.py";
              str "analysis/dihedrals/featurize-plot.py" ]
            [tica_msm] ] ].

(** Every file name declared in the tree, depth first in declared order. *)
Fixpoint all_files (d : TemplateDir) : list pystr :=
  match d with
  | mkTemplateDir _ fs subs =>
      fs ++ (fix go (l : list TemplateDir) : list pystr :=
               match l with
               | [] => []
               | s :: l' => all_files s ++ go l'
               end) subs
  end.

(** Every subdirectory name of the tree, depth first in declared order. *)
Fixpoint all_dirs (d : TemplateDir) : list pystr :=
  match d with
  | mkTemplateDir _ _ subs =>
      (fix go (l : list TemplateDir) : list pystr :=
         match l with
         | [] => []
         | s :: l' => dir_name s :: all_dirs s ++ go l'
         end) subs
  end.

(** ** The pieces that are fixed by the source *)

(** The metadata markers of [MetadataPackageLoader.get_source]. *)
Definition beg_str : pystr := str "Meta" ++ [nl] ++ str "----" ++ [nl].
Definition end_str : pystr := [nl; dq; dq; dq; nl].

(** The writers a [Template] chooses from. *)
Inductive writer := WGeneric | WPython | WShell | WIpython.

(** [Template.write_funcs] after [__init__]: a [defaultdict] whose default
    is the generic writer, with entries for [py] and [sh]; the notebook
    flag replaces the [py] entry. *)
Definition write_funcs (ipynb : bool) (ext : pystr) : writer :=
  if bool_decide (ext = str "py") then (if ipynb then WIpython else WPython)
  else if bool_decide (ext = str "sh") then WShell
  else WGeneric.

(** The notebook that [write_ipython] builds, and the name it writes to. *)
Definition ipynb_name (templ_fn : pystr) : pystr :=
  replace templ_fn (str ".py") (str ".ipynb").

Definition ipynb_cells (templ_fn rendered : pystr) : list cell :=
  let templ_ipynb_fn := ipynb_name templ_fn in
  let cell_texts := [templ_ipynb_fn] ++ re_split_heading rendered in
  flat_map
    (fun '(heading, content) =>
       [ new_markdown_cell (str "## " ++ strip heading);
         new_code_cell (strip content) ])
    (zip (slice2 cell_texts None (Some (-1)%Z)) (slice2 cell_texts (Some 1%Z) None)).

Definition ipynb_notebook (templ_fn rendered : pystr) : notebook :=
  new_notebook (ipynb_cells templ_fn rendered)
    {| name := str "python3"; display_name := str "Python 3" |}.

(** The path a writer backs up and opens, and what it writes there. *)
Definition writer_target (f : writer) (templ_fn : pystr) : pystr :=
  match f with
  | WIpython => ipynb_name templ_fn
  | _ => templ_fn
  end.

Definition writer_content (f : writer) (templ_fn rendered : pystr) : content :=
  match f with
  | WIpython => Nbformat (ipynb_notebook templ_fn rendered)
  | _ => Text rendered
  end.

(** The extension [Template.__init__] looks up in [write_funcs]. *)
Definition extension (template_fn : pystr) : pystr :=
  last_item (split template_fn "."%char).

(** ** The world outside the module *)

(** The operating system and the helpers imported from [msmbuilder.io],
    as operations on a system state [S].  A failing call raises and leaves
    the state as it was.  [sys_backup] and [sys_chmod_plus_x] are the two
    functions imported from [.io]; [sys_open_w] is [open(fn, 'w')] followed
    by the write and the close of the [with] block. *)
Class System (S : Type) := {
  sys_exists : pystr → S → bool;
  sys_abspath : pystr → S → pystr;
  sys_symlink : pystr → pystr → S → res S;
  sys_mkdir : pystr → S → res S;
  sys_chdir : pystr → S → res S;
  sys_backup : pystr → S → res S;
  sys_open_w : pystr → content → S → res S;
  sys_chmod_plus_x : pystr → S → res S;
  sys_now : S → pystr * S;
}.

(** The libraries the module calls: the package loader of the template
    store (source text and file name of a template, if it exists), the YAML
    decoder, and the template engine (compile a source, render the compiled
    template with [header] and [date]). *)
Class Libraries := {
  Code : Type;
  package_get_source : pystr → option (pystr * pystr);
  yaml_load : pystr → res yaml;
  jinja_compile : pystr → res Code;
  jinja_render : Code → pystr → pystr → res pystr;
}.

(** The calls that change something outside the process memory, in the
    order they are made (a call is recorded whether or not it succeeds). *)
Inductive call :=
| Cbackup (fn : pystr)
| Copen_w (fn : pystr) (c : content)
| Cchmod_plus_x (fn : pystr)
| Csymlink (src dst : pystr)
| Cmkdir (path : pystr)
| Cchdir (path : pystr).

(** The path a call creates a directory at, opens for writing, or links. *)
Definition mkdir_of (c : call) : option pystr :=
  match c with Cmkdir p => Some p | _ => None end.

Definition open_of (c : call) : option pystr :=
  match c with Copen_w p _ => Some p | _ => None end.

Definition symlink_of (c : call) : option (pystr * pystr) :=
  match c with Csymlink src dst => Some (src, dst) | _ => None end.

(** A call made by a writer on the file [fn]. *)
Definition writes_to (fn : pystr) (c : call) : Prop :=
  match c with
  | Cbackup p | Copen_w p _ | Cchmod_plus_x p => p = fn
  | _ => False
  end.

(** A call that writes a notebook. *)
Definition writes_notebook (c : call) : Prop :=
  match c with
  | Copen_w _ (Nbformat _) => True
  | _ => False
  end.

(** The calls a writer can have made when it ends with [r]: the backup
    alone when that raised, then the [open], then for the shell writer the
    [chmod]. *)
Definition writer_calls (f : writer) (p : pystr) (c : content)
  (r : res ()) (cs : list call) : Prop :=
  (cs = [Cbackup p] ∧ is_Ok r = false)
  ∨ (cs = [Cbackup p; Copen_w p c] ∧ (is_Ok r = false ∨ f ≠ WShell))
  ∨ (cs = [Cbackup p; Copen_w p c; Cchmod_plus_x p] ∧ f = WShell).

(** The calls of one turn of [render_files] on the template [fn]. *)
Definition file_calls (fn : pystr) {A} (r : res A) (cs : list call) : Prop :=
  (cs = [] ∧ is_Ok r = false)
  ∨ ∃ rendered r',
      writer_calls (write_funcs false (extension fn)) (basename fn) (Text rendered) r' cs
      ∧ is_Ok r = is_Ok r'.

(** The calls selected by [proj] are the [expected] ones, in that order,
    all of them when the run ends normally and a first part of them when
    it raises. *)
Definition follows {X A} (proj : call → option X) (expected : list X)
  (r : res A) (cs : list call) : Prop :=
  omap proj cs `prefix_of` expected ∧ (is_Ok r = true → omap proj cs = expected).

(** The link a dependency asks for. *)
Definition link_of (dep : hashable) : option (pystr * pystr) :=
  match dep with
  | HStr d => Some (str "../" ++ d, basename d)
  | _ => None
  end.

Section Program.

Context {S : Type} {Sys : System S} {Lib : Libraries}.

(** Iteration order of a Python [set]: given the objects inserted so far,
    in insertion order and with repetitions, the order in which a [for]
    loop visits the set.  It depends on the hashes of the interpreter
    process. *)
Variable set_order : list hashable → list hashable.

(** The state a run threads through: the system, the class attribute
    [MetadataPackageLoader.meta] (one dictionary shared by every use of the
    loader), and the calls made so far. *)
Record World := mkWorld {
  sys : S;
  loader_meta : gmap pystr yaml;
  calls : list call;
}.

Definition M (A : Type) : Type := World → res A * World.

#[export] Instance M_ret : MRet M := λ A a w, (Ok a, w).

#[export] Instance M_bind : MBind M := λ A B f m w,
  match m w with
  | (Ok a, w') => f a w'
  | (Raise e, w') => (Raise e, w')
  end.

Definition raise {A} (e : exn) : M A := λ w, (Raise e, w).

Definition lift {A} (r : res A) : M A := λ w, (r, w).

(** A system call: record it, then perform it. *)
Definition syscall (c : call) (f : S → res S) : M () := λ w,
  let cs := calls w ++ [c] in
  match f (sys w) with
  | Ok s => (Ok (), mkWorld s (loader_meta w) cs)
  | Raise e => (Raise e, mkWorld (sys w) (loader_meta w) cs)
  end.

Definition os_path_exists (path : pystr) : M bool := λ w,
  (Ok (sys_exists path (sys w)), w).

Definition os_path_abspath (path : pystr) : M pystr := λ w,
  (Ok (sys_abspath path (sys w)), w).

Definition os_symlink (src dst : pystr) : M () :=
  syscall (Csymlink src dst) (sys_symlink src dst).

Definition os_mkdir (path : pystr) : M () :=
  syscall (Cmkdir path) (sys_mkdir path).

Definition os_chdir (path : pystr) : M () :=
  syscall (Cchdir path) (sys_chdir path).

Definition backup (fn : pystr) : M () :=
  syscall (Cbackup fn) (sys_backup fn).

Definition open_w (fn : pystr) (c : content) : M () :=
  syscall (Copen_w fn c) (sys_open_w fn c).

Definition chmod_plus_x (fn : pystr) : M () :=
  syscall (Cchmod_plus_x fn) (sys_chmod_plus_x fn).

(** [datetime.now().isoformat()] *)
Definition datetime_now_isoformat : M pystr := λ w,
  let '(t, s) := sys_now (sys w) in
  (Ok t, mkWorld s (loader_meta w) (calls w)).

(** [self.meta[filename] = v] *)
Definition meta_set (filename : pystr) (v : yaml) : M () := λ w,
  (Ok (), mkWorld (sys w) (<[filename := v]> (loader_meta w)) (calls w)).

(** [ENV.loader.meta[filename]] *)
Definition meta_get (filename : pystr) : M yaml := λ w,
  match loader_meta w !! filename with
  | Some v => (Ok v, w)
  | None => (Raise KeyError, w)
  end.

(** ** MetadataPackageLoader *)

(** [PackageLoader.get_source]: source and file name, or [TemplateNotFound]. *)
Definition super_get_source (template : pystr) : M (pystr * pystr) :=
  match package_get_source template with
  | Some sf => mret sf
  | None => raise TemplateNotFound
  end.

Definition get_source (template : pystr) : M (pystr * pystr) :=
  '(source, filename) ← super_get_source template;
  let beg := find source beg_str in
  if bool_decide (beg = (-1)%Z) then
    meta_set filename (YMap []);;
    mret (source, filename)
  else
    let end_ := (find (slice source (Some beg) None) end_str + beg)%Z in
    m ← lift (yaml_load (slice source (Some (beg + len beg_str)%Z) (Some end_)));
    meta_set filename m;;
    let remove_meta := slice source None (Some beg) ++ slice source (Some end_) None in
    mret (remove_meta, filename).

(** ** Template *)

(** A compiled template as [ENV.get_template] returns it.  The cache of
    the environment is left out: a template served from the cache has the
    source, the file name and the metadata of its first load. *)
Record jinja_template := { filename : pystr; code : Code }.

Definition ENV_get_template (template_fn : pystr) : M jinja_template :=
  '(source, filename) ← get_source template_fn;
  c ← lift (jinja_compile source);
  mret {| filename := filename; code := c |}.

Record Template := {
  template_fn : pystr;
  template : jinja_template;
  meta : yaml;
  write_func : writer;
}.

(** [Template(template_fn, ipynb)] *)
Definition Template_init (template_fn : pystr) (ipynb : bool) : M Template :=
  t ← ENV_get_template template_fn;
  m ← meta_get (filename t);
  mret {| template_fn := template_fn;
          template := t;
          meta := m;
          write_func := write_funcs ipynb (extension template_fn) |}.

Definition get_header : M pystr :=
  now ← datetime_now_isoformat;
  mret (str "msmbuilder autogenerated template version 2" ++ [nl]
        ++ str "created " ++ now ++ [nl]
        ++ str "please cite msmbuilder in any publications").

Definition write_ipython (templ_fn rendered : pystr) : M () :=
  let templ_ipynb_fn := ipynb_name templ_fn in
  let nb := ipynb_notebook templ_fn rendered in
  backup templ_ipynb_fn;;
  open_w templ_ipynb_fn (Nbformat nb).

Definition write_python (templ_fn rendered : pystr) : M () :=
  backup templ_fn;;
  open_w templ_fn (Text rendered).

Definition write_shell (templ_fn rendered : pystr) : M () :=
  backup templ_fn;;
  open_w templ_fn (Text rendered);;
  chmod_plus_x templ_fn.

Definition write_generic (templ_fn rendered : pystr) : M () :=
  backup templ_fn;;
  open_w templ_fn (Text rendered).

Definition call_writer (f : writer) : pystr → pystr → M () :=
  match f with
  | WGeneric => write_generic
  | WPython => write_python
  | WShell => write_shell
  | WIpython => write_ipython
  end.

Definition Template_render (self : Template) : M () :=
  header ← get_header;
  date ← datetime_now_isoformat;
  rendered ← lift (jinja_render (code (template self)) header date);
  call_writer (write_func self) (basename (template_fn self)) rendered.

(** ** TemplateDir *)

(** One turn of the loop of [render_files]; [depends] holds what was
    inserted into the set so far. *)
Definition render_file (fn : pystr) (depends : list hashable) : M (list hashable) :=
  templ ← Template_init fn false;
  has ← lift (py_in (str "depends") (meta templ));
  depends' ← (if has : bool then
                v ← lift (py_getitem (meta templ) (str "depends"));
                new ← lift (py_iter v);
                mret (depends ++ new)
              else mret depends);
  Template_render templ;;
  mret depends'.

Fixpoint render_files_loop (fns : list pystr) (depends : list hashable)
  : M (list hashable) :=
  match fns with
  | [] => mret depends
  | fn :: fns' =>
      depends' ← render_file fn depends;
      render_files_loop fns' depends'
  end.

Definition render_files (self : TemplateDir) : M (list hashable) :=
  render_files_loop (files self) [].

(** One turn of the loop over [depends] in [render]. *)
Definition link_dependency (dep : hashable) : M () :=
  match dep with
  | HStr dep =>
      let bn := basename dep in
      ex ← os_path_exists bn;
      if negb ex then os_symlink (str "../" ++ dep) bn else mret ()
  | _ => raise TypeError
  end.

Fixpoint link_dependencies (deps : list hashable) : M () :=
  match deps with
  | [] => mret ()
  | dep :: deps' => link_dependency dep;; link_dependencies deps'
  end.

(** One turn of the loop over [subdirs] in [render], given the render of
    the subdirectory. *)
Definition render_subdir (render_sub : M ()) (sub_name : pystr) : M () :=
  backup sub_name;;
  os_mkdir sub_name;;
  pwd ← os_path_abspath (str ".");
  os_chdir sub_name;;
  render_sub;;
  os_chdir pwd.

(** The loop over [subdirs] in [render]; [render] is the method itself. *)
Definition render_subdirs (render : TemplateDir → M ())
  : list TemplateDir → M () :=
  fix go (l : list TemplateDir) : M () :=
    match l with
    | [] => mret ()
    | subdir :: l' =>
        render_subdir (render subdir) (dir_name subdir);;
        go l'
    end.

Fixpoint render (self : TemplateDir) : M () :=
  match self with
  | mkTemplateDir _ _ subs =>
      depends ← render_files self;
      link_dependencies (set_order depends);;
      render_subdirs render subs
  end.

(** [TemplateProject().do()] *)
Definition TemplateProject_do : M () := render get_layout.

(** ** Observing a run *)

(** [emits m Q]: started in any world, [m] adds some calls [cs] to the
    record and ends with a result [r] such that [Q r cs]. *)
Definition emits {A} (m : M A) (Q : res A → list call → Prop) : Prop :=
  ∀ w, ∃ cs, calls (m w).2 = calls w ++ cs ∧ Q (m w).1 cs.

(** Computations that make no call. *)
Definition quiet {A} (m : M A) : Prop := emits m (λ _ cs, cs = []).

End Program.

Arguments World S : clear implicits.
Arguments M S A : clear implicits.

(** [self.meta[filename] = v] seen as a change of the world. *)
Definition with_meta {S} (w : World S) (filename : pystr) (v : yaml) : World S :=
  mkWorld (sys w) (<[filename := v]> (loader_meta w)) (calls w).

(** The calls that the loop over [depends] in [render] makes when it
    starts in the system state [s].  A dependency whose base name exists
    gives no call; any other gives the [os.symlink], and the loop goes on
    in the state that call leaves.  The loop ends at a call that raises
    and at a dependency that is not a string. *)
Fixpoint link_calls {S} `{!System S} (deps : list hashable) (s : S) : list call :=
  match deps with
  | [] => []
  | HStr dep :: deps' =>
      let bn := basename dep in
      if sys_exists bn s then link_calls deps' s
      else Csymlink (str "../" ++ dep) bn ::
           match sys_symlink (str "../" ++ dep) bn s with
           | Ok s' => link_calls deps' s'
           | Raise _ => []
           end
  | _ :: _ => []
  end.

(** ** A file system to run the program on

    A POSIX directory tree keyed by absolute path (the list of its
    components), the working directory of the process, and a clock.
    Path lookup follows symbolic links the way the kernel does, giving up
    after forty of them. *)

Module Posix.

Inductive node :=
| Dir
| File (data : content) (exec : bool)
| Link (target : pystr).

Record fs := mkFs {
  tree : gmap (list pystr) node;
  cwd : list pystr;
  clock : nat;
}.

(** The root directory always exists. *)
Definition node_at (t : gmap (list pystr) node) (p : list pystr) : option node :=
  match p with
  | [] => Some Dir
  | _ => t !! p
  end.

Inductive lookup_result :=
| Found (p : list pystr) (n : node)
| Missing (p : list pystr) (trailing_slash : bool)
| Failed (e : exn).

Definition is_empty (c : pystr) : bool := bool_decide (c = []).

(** Walk the components [comps] from the directory [dir].  [follow] says
    whether a symbolic link in the last position is followed. *)
Fixpoint walk (fuel : nat) (t : gmap (list pystr) node) (follow : bool)
  (dir comps : list pystr) : lookup_result :=
  match fuel with
  | O => Failed OSError
  | Datatypes.S fuel' =>
      (fix go (dir comps : list pystr) : lookup_result :=
         match comps with
         | [] => Found dir Dir
         | c :: rest =>
             if bool_decide (c = [] ∨ c = str ".") then go dir rest
             else if bool_decide (c = str "..") then go (removelast dir) rest
             else
               let p := dir ++ [c] in
               match node_at t p with
               | None =>
                   if forallb is_empty rest
                   then Missing p (negb (bool_decide (rest = [])))
                   else Failed FileNotFoundError
               | Some Dir => go p rest
               | Some (File d x) =>
                   match rest with
                   | [] => Found p (File d x)
                   | _ => Failed NotADirectoryError
                   end
               | Some (Link target) =>
                   if bool_decide (rest = []) && negb follow
                   then Found p (Link target)
                   else walk fuel' t follow
                          (if startswith (str "/") target then [] else dir)
                          (split target "/"%char ++ rest)
               end
         end) dir comps
  end.

Definition resolve (follow : bool) (path : pystr) (s : fs) : lookup_result :=
  match path with
  | [] => Failed FileNotFoundError
  | _ => walk 41 (tree s) follow
           (if startswith (str "/") path then [] else cwd s)
           (split path "/"%char)
  end.

Definition with_tree (s : fs) (t : gmap (list pystr) node) : fs :=
  mkFs t (cwd s) (clock s).

(** [os.path.exists]: false for a broken symbolic link. *)
Definition exists_ (path : pystr) (s : fs) : bool :=
  match resolve true path s with
  | Found _ _ => true
  | _ => false
  end.

(** [os.path.lexists]: true for a broken symbolic link. *)
Definition lexists (path : pystr) (s : fs) : bool :=
  match resolve false path s with
  | Found _ _ => true
  | _ => false
  end.

Definition join_path (p : list pystr) : pystr :=
  match p with
  | [] => str "/"
  | _ => flat_map (fun c => "/"%char :: c) p
  end.

(** [os.path.abspath]: the path joined to the working directory and
    normalised textually. *)
Definition abspath (path : pystr) (s : fs) : pystr :=
  let start := if startswith (str "/") path then [] else cwd s in
  join_path
    (foldl (fun dir c =>
              if bool_decide (c = [] ∨ c = str ".") then dir
              else if bool_decide (c = str "..") then removelast dir
              else dir ++ [c])
       start (split path "/"%char)).

Definition symlink (src dst : pystr) (s : fs) : res fs :=
  match resolve false dst s with
  | Found _ _ => Raise FileExistsError
  | Missing p false => Ok (with_tree s (<[p := Link src]> (tree s)))
  | Missing _ true => Raise FileNotFoundError
  | Failed e => Raise e
  end.

Definition mkdir (path : pystr) (s : fs) : res fs :=
  match resolve false path s with
  | Found _ _ => Raise FileExistsError
  | Missing p _ => Ok (with_tree s (<[p := Dir]> (tree s)))
  | Failed e => Raise e
  end.

Definition chdir (path : pystr) (s : fs) : res fs :=
  match resolve true path s with
  | Found p Dir => Ok (mkFs (tree s) p (clock s))
  | Found _ _ => Raise NotADirectoryError
  | Missing _ _ => Raise FileNotFoundError
  | Failed e => Raise e
  end.

Definition open_w (path : pystr) (c : content) (s : fs) : res fs :=
  match resolve true path s with
  | Found p (File _ x) => Ok (with_tree s (<[p := File c x]> (tree s)))
  | Found _ _ => Raise IsADirectoryError
  | Missing p false => Ok (with_tree s (<[p := File c false]> (tree s)))
  | Missing _ true => Raise IsADirectoryError
  | Failed e => Raise e
  end.

(** Modelled from the spec: [chmod_plus_x] of [msmbuilder/io/io.py], which
    is not among the sources; it "marks the resulting file executable for
    owner/group/other (adds execute bits without removing existing
    permission bits)". *)
Definition chmod_plus_x (path : pystr) (s : fs) : res fs :=
  match resolve true path s with
  | Found p (File d _) => Ok (with_tree s (<[p := File d true]> (tree s)))
  | Found _ _ => Ok s
  | Missing _ _ => Raise FileNotFoundError
  | Failed e => Raise e
  end.

(** Move the entry at [src] and everything below it to [dst]. *)
Definition move_key (src dst k : list pystr) : list pystr :=
  if bool_decide (src `prefix_of` k) then dst ++ drop (length src) k else k.

Definition rename (src dst : pystr) (s : fs) : res fs :=
  match resolve false src s, resolve false dst s with
  | Found ps _, Missing pd _ | Found ps _, Found pd (Link _) =>
      let t := delete pd (tree s) in
      Ok (mkFs (list_to_map (prod_map (move_key ps pd) id <$> map_to_list t))
            (move_key ps pd (cwd s)) (clock s))
  | Found _ _, Found _ _ => Raise FileExistsError
  | Found _ _, Failed e => Raise e
  | Missing _ _, _ => Raise FileNotFoundError
  | Failed e, _ => Raise e
  end.

(** Modelled from the spec: [backup] of [msmbuilder/io/io.py], which is not
    among the sources: "if a file of the same name already exists, it is
    renamed aside (backed up)".  The name it is moved to is the first of
    [fn.bak.1], [fn.bak.2], ... that does not exist. *)
Definition backup_name (fn : pystr) (i : nat) : pystr :=
  fn ++ str ".bak." ++ str (pretty i).

Fixpoint first_free (fn : pystr) (s : fs) (i tries : nat) : option pystr :=
  match tries with
  | O => None
  | Datatypes.S tries' =>
      if exists_ (backup_name fn i) s then first_free fn s (Datatypes.S i) tries'
      else Some (backup_name fn i)
  end.

Definition backup (fn : pystr) (s : fs) : res fs :=
  if exists_ fn s then
    match first_free fn s 1 (Datatypes.S (size (tree s))) with
    | Some trial_fn => rename fn trial_fn s
    | None => Raise OSError
    end
  else Ok s.

Definition now (s : fs) : pystr * fs :=
  (str "2016-01-01T00:00:" ++ str (pretty (clock s)),
   mkFs (tree s) (cwd s) (Datatypes.S (clock s))).

#[global] Instance system : System fs := {|
  sys_exists := exists_;
  sys_abspath := abspath;
  sys_symlink := symlink;
  sys_mkdir := mkdir;
  sys_chdir := chdir;
  sys_backup := backup;
  sys_open_w := open_w;
  sys_chmod_plus_x := chmod_plus_x;
  sys_now := now;
|}.

(** A file system holding the directories [dirs] and nothing else. *)
Definition empty_in (dirs : list (list pystr)) (wd : list pystr) : fs :=
  mkFs (list_to_map ((fun d => (d, Dir)) <$> dirs)) wd 0.

End Posix.

(** ** Stand-ins for the libraries

    A template store given by a table, a template engine that substitutes
    the two context variables, and a decoder for the small part of YAML
    that metadata blocks use: top-level keys, each followed by a block
    sequence of plain words.  Every document it accepts is decoded as
    PyYAML decodes it; every other document is refused. *)

Module Stub.

Definition is_letter (c : ascii) : bool :=
  let n := nat_of_ascii c in
  ((65 <=? n) && (n <=? 90)) || ((97 <=? n) && (n <=? 122)).

Definition is_word_char (c : ascii) : bool :=
  let n := nat_of_ascii c in
  is_letter c || ((48 <=? n) && (n <=? 57))
  || bool_decide (c ∈ str "._/-").

(** Plain scalars that YAML 1.1 reads as a boolean or as null. *)
Definition reserved_words : list pystr :=
  str <$> [ "yes"; "Yes"; "YES"; "no"; "No"; "NO";
            "true"; "True"; "TRUE"; "false"; "False"; "FALSE";
            "on"; "On"; "ON"; "off"; "Off"; "OFF";
            "null"; "Null"; "NULL" ]%string.

(** A plain scalar that is certainly a string. *)
Definition is_word (s : pystr) : bool :=
  match s with
  | [] => false
  | c :: _ => is_letter c && forallb is_word_char s
              && negb (bool_decide (s ∈ reserved_words))
  end.

Inductive line :=
| KeyLine (k : pystr)
| ItemLine (v : pystr)
| BadLine.

Definition classify (l : pystr) : line :=
  if startswith (str "- ") (lstrip l) then
    let v := strip (drop 2 (lstrip l)) in
    if is_word v then ItemLine v else BadLine
  else
    match reverse l with
    | c :: k => if chr_eqb c ":"%char && is_word (reverse k)
                then KeyLine (reverse k) else BadLine
    | [] => BadLine
    end.

Definition value_of (items : list yaml) : yaml :=
  match items with
  | [] => YNone
  | _ => YSeq items
  end.

(** Lines are read last to first; [items] are the items seen since the
    last key, [acc] the entries already closed. *)
Fixpoint entries (rev_lines : list line) (items : list yaml)
  (acc : list (pystr * yaml)) : res (list (pystr * yaml)) :=
  match rev_lines with
  | [] => match items with [] => Ok acc | _ => Raise YAMLError end
  | KeyLine k :: ls =>
      if bool_decide (is_Some (assoc k acc)) then Raise YAMLError
      else entries ls [] ((k, value_of items) :: acc)
  | ItemLine v :: ls => entries ls (YStr v :: items) acc
  | BadLine :: ls => Raise YAMLError
  end.

Definition decode (text : pystr) : res yaml :=
  let ls := filter (fun l => strip l ≠ []) (split text nl) in
  match ls with
  | [] => Ok YNone
  | _ => match entries (reverse (classify <$> ls)) [] [] with
         | Ok kvs => Ok (YMap kvs)
         | Raise e => Raise e
         end
  end.

(** The engine: [{{header}}] and [{{date}}] are replaced, nothing else is
    interpreted. *)
Definition render_text (source header date : pystr) : res pystr :=
  Ok (replace (replace source (str "{{header}}") header) (str "{{date}}") date).

Fixpoint store_lookup (store : list (pystr * pystr)) (template : pystr)
  : option (pystr * pystr) :=
  match store with
  | [] => None
  | (n, source) :: store' =>
      if bool_decide (n = template)
      then Some (source, str "project_templates/" ++ template)
      else store_lookup store' template
  end.

Definition libraries (store : list (pystr * pystr)) : Libraries := {|
  Code := pystr;
  package_get_source := store_lookup store;
  yaml_load := decode;
  jinja_compile := Ok;
  jinja_render := render_text;
|}.

(** Two orders in which a set may be visited: first insertion first, and
    first insertion last. *)
#[global] Instance hashable_eq_dec : EqDecision hashable.
Proof. solve_decision. Defined.

Definition insertion_order (inserted : list hashable) : list hashable :=
  remove_dups inserted.

Definition reverse_order (inserted : list hashable) : list hashable :=
  reverse (remove_dups inserted).

(** A world that starts in [/proj], an empty directory. *)
Definition fresh_world : World Posix.fs :=
  mkWorld (Posix.empty_in [[str "proj"]] [str "proj"]) ∅ [].

End Stub.

(** ** Inputs for the examples *)

Module Samples.

Definition lines (l : list string) : pystr := flat_map (λ s, str s ++ [nl]) l.

(** The rendered text of the notebook scenario. *)
Definition cluster_rendered : pystr :=
  lines ["## Setup"; "import os"; "## Run"; "print(1)"]%string.

Definition cluster_cells : list cell :=
  [ new_markdown_cell (str "## cluster.ipynb"); new_code_cell [];
    new_markdown_cell (str "## Setup"); new_code_cell (str "import os");
    new_markdown_cell (str "## Run"); new_code_cell (str "print(1)") ].

(** A template with a metadata block inside its docstring. *)
Definition doc_pre : pystr :=
  [dq; dq; dq] ++ lines ["Cluster"; ""; "{{header}}"; ""]%string.

Definition doc_block : pystr :=
  str "depends:" ++ [nl] ++ str "  - a" ++ [nl] ++ str "  - b".

Definition doc_post : pystr := lines ["import os"]%string.

Definition doc_source : pystr :=
  doc_pre ++ beg_str ++ doc_block ++ end_str ++ doc_post.

(** A begin marker, after one character, that no end marker closes. *)
Definition unterminated : pystr := str "#" ++ beg_str ++ str "todo".

(** A begin marker at the very start that no end marker closes. *)
Definition headless : pystr :=
  beg_str ++ lines ["depends:"; " - a"]%string ++ str "X".

Definition store : list (pystr * pystr) :=
  [ (str "README.md", str "hello");
    (str "x.py", doc_source);
    (str "run.sh", str "echo {{date}}");
    (str "unterminated.py", unterminated);
    (str "headless.py", headless) ].

Definition lib : Libraries := Stub.libraries store.

(** A store that holds the template with a docstring under every name of
    the layout. *)
Definition layout_lib : Libraries :=
  Stub.libraries ((λ fn, (fn, doc_source)) <$> all_files get_layout).

(** A node whose second file has no template, and a tree whose child has
    a file without template. *)
Definition gap_files_before : list pystr := [str "README.md"].
Definition gap_file : pystr := str "missing.py".
Definition gap_files_after : list pystr := [str "x.py"].

Definition broken_tree : TemplateDir :=
  mkTemplateDir [] [str "README.md"]
    [mkTemplateDir (str "analysis") [str "analysis/missing.py"] []].

(** A child directory that renders without trouble. *)
Definition good_child : TemplateDir :=
  mkTemplateDir (str "sub") [str "README.md"] [].

(** A node with one file, which depends on [a] and [b]. *)
Definition linked_tree : TemplateDir := mkTemplateDir [] [str "x.py"] [].

(** The process is in [/proj/analysis]; [/proj] holds nothing else. *)
Definition analysis_world : World Posix.fs :=
  mkWorld
    (Posix.empty_in [[str "proj"]; [str "proj"; str "analysis"]]
       [str "proj"; str "analysis"])
    ∅ [].

(** The process is in [/proj], where [run.sh] exists. *)
Definition rerun_world : World Posix.fs :=
  mkWorld
    (Posix.mkFs
       (<[ [str "proj"; str "run.sh"] := Posix.File (Text (str "old")) true ]>
          (<[ [str "proj"] := Posix.Dir ]> ∅))
       [str "proj"] 0)
    ∅ [].

End Samples.


(** ** Vocabulary for the properties of the notebook writer and of a run *)

(** The text that [re.split] on the heading pattern took apart: pieces and
    captured titles alternate, and a title stood between the heading mark
    and a newline. *)
Fixpoint rejoin (pieces : list pystr) : pystr :=
  match pieces with
  | [] => []
  | [t] => t
  | t :: title :: rest => t ++ heading_mark ++ title ++ [nl] ++ rejoin rest
  end.

(** The calls of a run in which every [open] for writing and every [mkdir]
    comes right after the backup of the same path; [prev] is the call made
    just before. *)
Definition overwrites (c : call) : option pystr :=
  match c with
  | Copen_w p _ | Cmkdir p => Some p
  | _ => None
  end.

Fixpoint guarded_from (prev : option call) (cs : list call) : Prop :=
  match cs with
  | [] => True
  | c :: cs' =>
      match overwrites c with
      | Some p => prev = Some (Cbackup p)
      | None => True
      end ∧ guarded_from (Some c) cs'
  end.

Definition guarded (cs : list call) : Prop := guarded_from None cs.

(** The path a call makes executable. *)
Definition chmod_of (c : call) : option pystr :=
  match c with Cchmod_plus_x p => Some p | _ => None end.

(** More inputs: a template whose metadata block is not YAML, and one
    whose block holds a key without items. *)
Module MoreSamples.

Definition bad_source : pystr :=
  Samples.doc_pre ++ beg_str ++ str "depends: [a" ++ end_str ++ Samples.doc_post.

Definition store : list (pystr * pystr) :=
  [ (str "bad.py", bad_source);
    (str "x.py", Samples.doc_source);
    (str "README.md", str "hello");
    (str "run.sh", str "echo {{date}}") ].

Definition lib : Libraries := Stub.libraries store.

(** A docstring whose Meta section is empty: the closing quotes come
    right after the begin marker. *)
Definition empty_section : pystr :=
  Samples.doc_pre ++ beg_str ++ [dq; dq; dq; nl] ++ Samples.doc_post.

Definition empty_lib : Libraries :=
  Stub.libraries [(str "empty.py", empty_section)].

End MoreSamples.


(** * Properties *)

(** ** Searching *)

Lemma startswith_spec sub s :
  startswith sub s = true ↔ ∃ post, s = sub ++ post.
Proof.
  revert s. induction sub as [|a sub IH]; intros s; simpl.
  - split; [eauto|done].
  - destruct s as [|b s]; [split; [done|by intros [post [=]]]|].
    unfold chr_eqb. rewrite andb_true_iff, IH. split.
    + intros [->%Ascii.eqb_eq [post ->]]. eauto.
    + intros [post [= -> ->]]. split; [apply Ascii.eqb_refl|eauto].
Qed.

Lemma index_of_Some sub s i :
  index_of sub s = Some i →
  ∃ pre post, s = pre ++ sub ++ post ∧ length pre = i.
Proof.
  revert i. induction s as [|c s IH]; intros i; simpl.
  - destruct (startswith sub []) eqn:E; [|done].
    intros [= <-]. apply startswith_spec in E as [post ->]. by exists [], post.
  - destruct (startswith sub (c :: s)) eqn:E.
    + intros [= <-]. apply startswith_spec in E as [post ->]. by exists [], post.
    + destruct (index_of sub s) as [j|]; [|done].
      intros [= <-]. destruct (IH j eq_refl) as (pre & post & -> & <-).
      by exists (c :: pre), post.
Qed.

Lemma index_of_None sub s :
  index_of sub s = None → ∀ pre post, s ≠ pre ++ sub ++ post.
Proof.
  induction s as [|c s IH]; simpl.
  - destruct (startswith sub []) eqn:E; [done|]. intros _ pre post Hs.
    destruct pre; [|done]. assert (startswith sub [] = true); [|congruence].
    apply startswith_spec. eauto.
  - destruct (startswith sub (c :: s)) eqn:E; [done|].
    destruct (index_of sub s); [done|]. intros _ pre post Hs.
    destruct pre as [|c' pre].
    + assert (startswith sub (c :: s) = true); [|congruence].
      apply startswith_spec. eauto.
    + injection Hs as -> Hs. by eapply IH.
Qed.

(** [find] gives [-1] exactly when the text does not contain [sub]. *)
Lemma find_absent s sub :
  find s sub = (-1)%Z ↔ ∀ pre post, s ≠ pre ++ sub ++ post.
Proof.
  unfold find. split.
  - destruct (index_of sub s) eqn:E; [lia|]. intros _. by apply index_of_None.
  - intros H. destruct (index_of sub s) as [i|] eqn:E; [|done].
    apply index_of_Some in E as (pre & post & -> & _). by destruct (H pre post).
Qed.

(** Otherwise [find] gives a position where [sub] occurs. *)
Lemma find_present s sub (i : nat) :
  find s sub = Z.of_nat i →
  ∃ pre post, s = pre ++ sub ++ post ∧ length pre = i.
Proof.
  unfold find. destruct (index_of sub s) as [j|] eqn:E; [|lia].
  intros ->%Nat2Z.inj. by apply index_of_Some.
Qed.

(** ** Slices *)

Section Slices.

Context {A : Type}.
Implicit Types s : list A.

Lemma clamp_index_nat s (i : nat) : clamp_index s (Z.of_nat i) = (i `min` length s)%nat.
Proof.
  unfold clamp_index, len.
  destruct (Z.ltb_spec (Z.of_nat i) 0) as [Hneg|_]; [lia|].
  rewrite <- Nat2Z.inj_min. apply Nat2Z.id.
Qed.

Lemma slice_upto s (hi : nat) : slice s None (Some (Z.of_nat hi)) = take hi s.
Proof.
  unfold slice; simpl. rewrite clamp_index_nat, Nat.sub_0_r.
  destruct (Nat.le_ge_cases hi (length s)) as [Hle|Hge].
  - by rewrite Nat.min_l.
  - rewrite Nat.min_r by done. rewrite (take_ge s hi) by lia. by apply take_ge.
Qed.

Lemma slice_onwards s (lo : nat) : slice s (Some (Z.of_nat lo)) None = drop lo s.
Proof.
  unfold slice; simpl. rewrite clamp_index_nat.
  destruct (Nat.le_ge_cases lo (length s)) as [Hle|Hge].
  - rewrite Nat.min_l by done. apply take_ge. rewrite length_drop. lia.
  - rewrite Nat.min_r by done. rewrite !drop_ge by lia. by rewrite take_nil.
Qed.

Lemma slice_between s (lo hi : nat) :
  slice s (Some (Z.of_nat lo)) (Some (Z.of_nat hi)) = take (hi - lo) (drop lo s).
Proof.
  unfold slice; simpl. rewrite !clamp_index_nat.
  destruct (Nat.le_ge_cases (length s) lo) as [Hge|Hlt].
  - rewrite (Nat.min_r lo) by done. rewrite !drop_ge by lia. by rewrite !take_nil.
  - rewrite (Nat.min_l lo) by done.
    destruct (Nat.le_ge_cases hi (length s)) as [Hle|Hge].
    + by rewrite Nat.min_l.
    + rewrite Nat.min_r by done.
      rewrite (take_ge _ (hi - lo)) by (rewrite length_drop; lia).
      apply take_ge. rewrite length_drop. lia.
Qed.

End Slices.

Section Loader.

Context {S : Type} {Lib : Libraries}.
Implicit Types w : World S.

Lemma find_nonneg_not_absent (s sub : pystr) (i : nat) :
  find s sub = Z.of_nat i → bool_decide (find s sub = (-1)%Z) = false.
Proof. intros ->. apply bool_decide_eq_false. lia. Qed.

(** How [get_source] runs once the begin marker has been found at [b] and
    the search for the end marker has given the index [e] in the whole
    source. *)
Lemma get_source_block template source fname (b : nat) (e : Z) w :
  package_get_source template = Some (source, fname) →
  find source beg_str = Z.of_nat b →
  (find (drop b source) end_str + Z.of_nat b)%Z = e →
  get_source template w =
    match yaml_load (slice source (Some (Z.of_nat b + len beg_str)%Z) (Some e)) with
    | Ok m => (Ok (take b source ++ slice source (Some e) None, fname),
               with_meta w fname m)
    | Raise x => (Raise x, w)
    end.
Proof.
  intros Hsrc Hbeg He.
  unfold get_source, super_get_source. rewrite Hsrc.
  unfold mbind, M_bind, mret, M_ret; simpl.
  rewrite (find_nonneg_not_absent _ _ _ Hbeg), Hbeg.
  rewrite slice_onwards, He, slice_upto.
  unfold lift. by destruct (yaml_load _).
Qed.

(** C5: when the begin marker does not occur in the source of a template,
    [get_source] returns the source unchanged, records the empty mapping
    as the metadata of that template, and does not raise. *)
Theorem get_source_without_metadata template source fname w :
  package_get_source template = Some (source, fname) →
  find source beg_str = (-1)%Z →
  get_source template w = (Ok (source, fname), with_meta w fname (YMap [])).
Proof.
  intros Hsrc Hbeg.
  unfold get_source, super_get_source. rewrite Hsrc.
  unfold mbind, M_bind, mret, M_ret; simpl.
  by rewrite Hbeg.
Qed.

Lemma end_marker_after_begin (q mid post : pystr) :
  beg_str ++ q = mid ++ end_str ++ post →
  (length mid = 9 ∨ 10 ≤ length mid)%nat.
Proof.
  intros H. destruct (le_lt_dec 10 (length mid)) as [Hge|Hlt]; [by right|left].
  do 10 (destruct mid as [|? mid]; [try (exfalso; cbv in H; congruence)|]);
    [done|simpl in Hlt; lia].
Qed.

Lemma drop_take_block (rest : pystr) (e : nat) :
  take (e - length beg_str) (drop (length beg_str) rest)
  = drop (length beg_str) (take e rest).
Proof.
  destruct (le_lt_dec (length beg_str) e) as [Hge|Hlt].
  - rewrite take_drop_commute. do 2 f_equal. lia.
  - replace (e - length beg_str)%nat with 0%nat by lia.
    rewrite take_0, drop_ge; [done|]. rewrite length_take. lia.
Qed.

(** C3 (amended): for every source in which the begin marker is found, at
    [b], and the end marker is found in what starts there, at [e] from
    [b]: the source is [pre ++ mid ++ end_str ++ post], where [mid], of
    length [e], starts at the begin marker.  Either [mid] is the begin
    marker followed by the block, or the end marker starts on the last
    newline of the begin marker and the block is empty.  [get_source]
    decodes the block and returns [pre ++ end_str ++ post]: the begin
    marker and the block are removed, the end marker and the text around
    the span are kept; when the decoder raises, nothing is stored. *)
Theorem get_source_with_metadata template source fname (b e : nat) w :
  let rest := drop b source in
  let pre := take b source in
  let mid := take e rest in
  let post := drop (e + length end_str) rest in
  let block := drop (length beg_str) mid in
  package_get_source template = Some (source, fname) →
  find source beg_str = Z.of_nat b →
  find rest end_str = Z.of_nat e →
  source = pre ++ mid ++ end_str ++ post
  ∧ (mid = beg_str ++ block ∨ (beg_str = mid ++ [nl] ∧ block = []))
  ∧ get_source template w =
      match yaml_load block with
      | Ok m => (Ok (pre ++ end_str ++ post, fname), with_meta w fname m)
      | Raise x => (Raise x, w)
      end.
Proof.
  intros rest pre mid post block Hsrc Hbeg Hend.
  destruct (find_present _ _ _ Hbeg) as (p & q & Hp & Hlp).
  destruct (find_present _ _ _ Hend) as (mid' & post' & Hrest & Hlm).
  assert (Hq : rest = beg_str ++ q).
  { unfold rest. rewrite Hp, <- Hlp. apply drop_app_length. }
  assert (Hmid : mid = mid').
  { unfold mid. rewrite Hrest, <- Hlm. apply take_app_length. }
  assert (Htail : drop e rest = end_str ++ post).
  { unfold post. rewrite <- drop_drop. rewrite Hrest at 1 2. rewrite <- Hlm.
    rewrite drop_app_length. by rewrite (drop_app_length end_str post'). }
  assert (Hwhole : rest = mid ++ end_str ++ post).
  { rewrite <- Htail. unfold mid. by rewrite take_drop. }
  split; [|split].
  - unfold pre. rewrite <- Hwhole. unfold rest. by rewrite take_drop.
  - assert (Hlen : length mid = e) by (by rewrite Hmid).
    rewrite Hq in Hwhole.
    destruct (end_marker_after_begin _ _ _ Hwhole) as [H9|H10].
    + right.
      do 10 (destruct mid as [|? mid]; [try (simpl in H9; lia)|]);
        [|simpl in H9; lia].
      split; [|done]. cbv in Hwhole. cbv. congruence.
    + left. unfold block.
      assert (Hm : mid = take e (beg_str ++ q)) by (unfold mid; by rewrite Hq).
      rewrite Hm, take_app_ge by (rewrite <- Hlen; exact H10).
      by rewrite drop_app_length.
  - rewrite (get_source_block template source fname b (Z.of_nat (e + b)) w Hsrc Hbeg).
    2:{ fold rest. rewrite Hend. lia. }
    replace (Z.of_nat b + len beg_str)%Z with (Z.of_nat (b + length beg_str))
      by (unfold len; lia).
    rewrite slice_between, slice_onwards.
    replace (e + b - (b + length beg_str))%nat with (e - length beg_str)%nat by lia.
    rewrite <- (drop_drop source), (Nat.add_comm e b), <- (drop_drop source).
    fold rest. rewrite drop_take_block. fold mid. fold block.
    by rewrite Htail.
Qed.

(** C9 (amended): when the begin marker is first found right after a
    character [c], so not at the start of the source, and no end marker
    occurs at or after it, the search for the end gives [beg - 1], the
    block handed to the decoder is empty, [None] is stored once the decoder
    maps the empty document to it, nothing is raised, and the returned text
    is the source with [c] doubled: marker and all that follows stay. *)
Theorem get_source_unterminated template fname pre c rest w :
  let source := pre ++ [c] ++ rest in
  let beg := find source beg_str in
  let end_ := (find (slice source (Some beg) None) end_str + beg)%Z in
  package_get_source template = Some (source, fname) →
  beg = len (pre ++ [c]) →
  find rest end_str = (-1)%Z →
  yaml_load [] = Ok YNone →
  end_ = (beg - 1)%Z
  ∧ slice source (Some (beg + len beg_str)%Z) (Some end_) = []
  ∧ get_source template w
    = (Ok (pre ++ [c] ++ [c] ++ rest, fname), with_meta w fname YNone).
Proof.
  intros source beg end_ Hsrc Hbeg Hend Hyaml.
  assert (Hdrop : drop (length (pre ++ [c])) source = rest).
  { unfold source. rewrite app_assoc. apply drop_app_length. }
  assert (He : end_ = Z.of_nat (length pre)).
  { unfold end_. rewrite Hbeg. unfold len. rewrite slice_onwards, Hdrop, Hend.
    rewrite length_app; simpl. lia. }
  assert (Hblock : slice source (Some (beg + len beg_str)%Z) (Some end_) = []).
  { rewrite He, Hbeg.
    replace (len (pre ++ [c]) + len beg_str)%Z
      with (Z.of_nat (length (pre ++ [c]) + length beg_str))
      by (unfold len; lia).
    rewrite slice_between.
    replace (length pre - (length (pre ++ [c]) + length beg_str))%nat with 0%nat
      by (rewrite length_app; lia).
    apply take_0. }
  split; [rewrite He, Hbeg; unfold len; rewrite length_app; simpl; lia|].
  split; [done|].
  rewrite (get_source_block template source fname (length (pre ++ [c]))
             (Z.of_nat (length pre)) w Hsrc Hbeg).
  2:{ rewrite Hdrop, Hend, length_app; simpl. lia. }
  fold (len (pre ++ [c])). rewrite <- Hbeg, <- He, Hblock, Hyaml.
  rewrite He, slice_onwards.
  assert (Htake : take (length (pre ++ [c])) source = pre ++ [c]).
  { unfold source. rewrite app_assoc. apply take_app_length. }
  assert (Hdrop' : drop (length pre) source = [c] ++ rest) by apply drop_app_length.
  by rewrite Htake, Hdrop', <- !app_assoc.
Qed.

End Loader.

(** ** Reasoning about the calls of a run *)

Section Runs.

Context {S : Type} {Sys : System S} {Lib : Libraries}.
Implicit Types w : World S.

Lemma bind_run {A B} (m : M S A) (f : A → M S B) w :
  (m ≫= f) w = match m w with
               | (Ok a, w') => f a w'
               | (Raise e, w') => (Raise e, w')
               end.
Proof. reflexivity. Qed.

Lemma bind_run_Ok {A B} (m : M S A) (f : A → M S B) w a w' :
  m w = (Ok a, w') → (m ≫= f) w = f a w'.
Proof. intros H. by rewrite bind_run, H. Qed.

Lemma bind_run_Raise {A B} (m : M S A) (f : A → M S B) w e w' :
  m w = (Raise e, w') → (m ≫= f) w = (Raise e, w').
Proof. intros H. by rewrite bind_run, H. Qed.

Lemma emits_mono {A} (m : M S A) (Q Q' : res A → list call → Prop) :
  emits m Q → (∀ r cs, Q r cs → Q' r cs) → emits m Q'.
Proof. intros Hm HQ w. destruct (Hm w) as (cs & Hcs & HQcs). eauto. Qed.

Lemma emits_and {A} (m : M S A) (Q Q' : res A → list call → Prop) :
  emits m Q → emits m Q' → emits m (λ r cs, Q r cs ∧ Q' r cs).
Proof.
  intros Hm Hm' w.
  destruct (Hm w) as (cs & Hcs & HQ), (Hm' w) as (cs' & Hcs' & HQ').
  assert (cs = cs') as <- by (rewrite Hcs in Hcs'; by apply app_inv_head in Hcs').
  eauto.
Qed.

Lemma emits_ret {A} (a : A) (Q : res A → list call → Prop) :
  Q (Ok a) [] → emits (mret a : M S A) Q.
Proof. intros HQ w. exists []. by rewrite app_nil_r. Qed.

Lemma emits_raise {A} (e : exn) (Q : res A → list call → Prop) :
  Q (Raise e) [] → emits (raise e : M S A) Q.
Proof. intros HQ w. exists []. by rewrite app_nil_r. Qed.

Lemma emits_lift {A} (r : res A) (Q : res A → list call → Prop) :
  Q r [] → emits (lift r : M S A) Q.
Proof. intros HQ w. exists []. by rewrite app_nil_r. Qed.

Lemma emits_syscall (c : call) (f : S → res S) (Q : res () → list call → Prop) :
  (∀ r, Q r [c]) → emits (syscall c f) Q.
Proof.
  intros HQ w. exists [c]. unfold syscall.
  destruct (f (sys w)); simpl; eauto.
Qed.

Lemma emits_bind {A B} (m : M S A) (f : A → M S B)
    (Q1 : res A → list call → Prop) (Q : res B → list call → Prop) :
  emits m Q1 →
  (∀ e cs, Q1 (Raise e) cs → Q (Raise e) cs) →
  (∀ a cs1, Q1 (Ok a) cs1 → emits (f a) (λ r cs2, Q r (cs1 ++ cs2))) →
  emits (m ≫= f) Q.
Proof.
  intros Hm Hraise Hf w. rewrite bind_run.
  destruct (Hm w) as (cs1 & Hcs1 & HQ1).
  destruct (m w) as [[a|e] w1]; simpl in *.
  - destruct (Hf a cs1 HQ1 w1) as (cs2 & Hcs2 & HQ2).
    exists (cs1 ++ cs2). by rewrite Hcs2, Hcs1, app_assoc.
  - exists cs1. eauto.
Qed.

Lemma quiet_bind {A B} (m : M S A) (f : A → M S B) :
  quiet m → (∀ a, quiet (f a)) → quiet (m ≫= f).
Proof.
  intros Hm Hf. apply (emits_bind _ _ (λ _ cs, cs = [])); [done|done|].
  intros a cs1 ->. apply Hf.
Qed.

Lemma quiet_ret {A} (a : A) : quiet (mret a : M S A).
Proof. by apply emits_ret. Qed.

Lemma quiet_lift {A} (r : res A) : quiet (lift r : M S A).
Proof. by apply emits_lift. Qed.

Lemma quiet_raise {A} (e : exn) : quiet (raise e : M S A).
Proof. by apply emits_raise. Qed.

Lemma quiet_now : quiet (datetime_now_isoformat : M S pystr).
Proof.
  intros w. exists []. unfold datetime_now_isoformat.
  destruct (sys_now (sys w)); simpl. by rewrite app_nil_r.
Qed.

Lemma quiet_meta_set fname v : quiet (meta_set fname v : M S ()).
Proof. intros w. exists []. simpl. by rewrite app_nil_r. Qed.

Lemma quiet_meta_get fname : quiet (meta_get fname : M S yaml).
Proof.
  intros w. exists []. unfold meta_get.
  destruct (loader_meta w !! fname); simpl; by rewrite app_nil_r.
Qed.

Lemma quiet_exists path : quiet (os_path_exists path : M S bool).
Proof. intros w. exists []. simpl. by rewrite app_nil_r. Qed.

Lemma quiet_abspath path : quiet (os_path_abspath path : M S pystr).
Proof. intros w. exists []. simpl. by rewrite app_nil_r. Qed.

Lemma quiet_get_source template : quiet (get_source template : M S _).
Proof.
  unfold get_source. apply quiet_bind.
  - unfold super_get_source. destruct (package_get_source template).
    + apply quiet_ret.
    + apply quiet_raise.
  - intros [source fname]. case_bool_decide.
    + apply quiet_bind; [apply quiet_meta_set|]. intros _. apply quiet_ret.
    + apply quiet_bind; [apply quiet_lift|]. intros m.
      apply quiet_bind; [apply quiet_meta_set|]. intros _. apply quiet_ret.
Qed.

Lemma quiet_get_template fn : quiet (ENV_get_template fn : M S _).
Proof.
  unfold ENV_get_template. apply quiet_bind; [apply quiet_get_source|].
  intros [source fname]. apply quiet_bind; [apply quiet_lift|].
  intros c. apply quiet_ret.
Qed.

Lemma quiet_get_header : quiet (get_header : M S pystr).
Proof.
  unfold get_header. apply quiet_bind; [apply quiet_now|].
  intros t. apply quiet_ret.
Qed.


Lemma Template_init_emits fn ipynb :
  emits (Template_init fn ipynb : M S _) (λ r cs,
    cs = [] ∧ ∀ t, r = Ok t →
      template_fn t = fn ∧ write_func t = write_funcs ipynb (extension fn)).
Proof.
  unfold Template_init.
  apply (emits_bind _ _ (λ _ cs, cs = [])); [apply quiet_get_template| |].
  { intros e cs ->. by split. }
  intros t cs1 ->.
  apply (emits_bind _ _ (λ _ cs, cs = [])); [apply quiet_meta_get| |].
  { intros e cs ->. by split. }
  intros m cs1 ->. apply emits_ret. split; [done|].
  by intros t' [= <-].
Qed.

Lemma syscall_emits (c : call) (f : S → res S) :
  emits (syscall c f) (λ _ cs, cs = [c]).
Proof. by apply emits_syscall. Qed.

Lemma backup_then_open_emits f p c :
  f ≠ WShell →
  emits (backup p;; open_w p c : M S ()) (writer_calls f p c).
Proof.
  intros Hf. eapply emits_bind; [apply syscall_emits| |].
  - intros e cs ->. by left.
  - intros _ cs ->. apply emits_syscall. intros r. right; left. auto.
Qed.

Lemma call_writer_emits f templ_fn rendered :
  emits (call_writer f templ_fn rendered : M S ())
    (writer_calls f (writer_target f templ_fn) (writer_content f templ_fn rendered)).
Proof.
  destruct f; simpl; try by apply backup_then_open_emits.
  unfold write_shell.
  eapply emits_bind; [apply syscall_emits| |].
  { intros e cs ->. by left. }
  intros _ cs ->.
  eapply emits_bind; [apply syscall_emits| |].
  { intros e cs ->. right; left. auto. }
  intros _ cs ->. apply emits_syscall. intros r. by right; right.
Qed.

Lemma Template_render_emits (t : Template) :
  emits (Template_render t : M S ()) (λ r cs,
    (cs = [] ∧ is_Ok r = false)
    ∨ ∃ rendered,
        writer_calls (write_func t)
          (writer_target (write_func t) (basename (template_fn t)))
          (writer_content (write_func t) (basename (template_fn t)) rendered) r cs).
Proof.
  unfold Template_render.
  apply (emits_bind _ _ (λ _ cs, cs = [])); [apply quiet_get_header| |].
  { intros e cs ->. by left. }
  intros header cs1 ->.
  apply (emits_bind _ _ (λ _ cs, cs = [])); [apply quiet_now| |].
  { intros e cs ->. by left. }
  intros date cs1 ->.
  apply (emits_bind _ _ (λ _ cs, cs = [])); [apply quiet_lift| |].
  { intros e cs ->. by left. }
  intros rendered cs1 ->. simpl.
  eapply emits_mono; [apply call_writer_emits|]. intros r cs H. right. eauto.
Qed.

Lemma write_funcs_not_ipython ext : write_funcs false ext ≠ WIpython.
Proof. unfold write_funcs. repeat case_bool_decide; done. Qed.

Lemma render_file_emits fn depends :
  emits (render_file fn depends : M S _) (file_calls fn).
Proof.
  unfold render_file.
  eapply emits_bind; [apply Template_init_emits| |].
  { intros e cs [-> _]. by left. }
  intros t cs1 [-> Ht]. destruct (Ht t eq_refl) as [Hfn Hwf]. simpl.
  apply (emits_bind _ _ (λ _ cs, cs = [])); [apply quiet_lift| |].
  { intros e cs ->. by left. }
  intros has cs1 ->. simpl.
  apply (emits_bind _ _ (λ _ cs, cs = [])).
  { destruct has; [|apply quiet_ret].
    apply quiet_bind; [apply quiet_lift|]. intros v.
    apply quiet_bind; [apply quiet_lift|]. intros new. apply quiet_ret. }
  { intros e cs ->. by left. }
  intros depends' cs1 ->. simpl.
  eapply emits_bind; [apply Template_render_emits| |].
  - intros e cs [[-> _]|(rendered & H)]; [by left|].
    right. exists rendered, (Raise e). split; [|done].
    rewrite Hwf, Hfn in H.
    by destruct (write_funcs false (extension fn)) eqn:E;
      [..|by apply write_funcs_not_ipython in E].
  - intros [] cs [[_ [=]]|(rendered & H)].
    apply emits_ret. rewrite app_nil_r.
    right. exists rendered, (Ok ()). split; [|done].
    rewrite Hwf, Hfn in H.
    by destruct (write_funcs false (extension fn)) eqn:E;
      [..|by apply write_funcs_not_ipython in E].
Qed.

(** *** What follows from the shape of the calls on one file *)

Lemma writer_calls_writes f p c r cs :
  writer_calls f p c r cs → Forall (writes_to p) cs.
Proof. intros [[-> _]|[[-> _]|[-> _]]]; repeat constructor. Qed.

Lemma writer_calls_opens f p c r cs :
  writer_calls f p c r cs →
  omap open_of cs `prefix_of` [p] ∧ (is_Ok r = true → omap open_of cs = [p]).
Proof.
  intros [[-> Hr]|[[-> _]|[-> _]]]; simpl.
  - split; [apply prefix_nil|by rewrite Hr].
  - done.
  - done.
Qed.

Lemma file_calls_writes fn {A} (r : res A) cs :
  file_calls fn r cs → Forall (writes_to (basename fn)) cs.
Proof.
  intros [[-> _]|(rendered & r' & H & _)]; [constructor|].
  by eapply writer_calls_writes.
Qed.

Lemma file_calls_text fn {A} (r : res A) cs :
  file_calls fn r cs → Forall (λ c, ¬ writes_notebook c) cs.
Proof.
  intros [[-> _]|(rendered & r' & [[-> _]|[[-> _]|[-> _]]] & _)];
    repeat constructor; auto.
Qed.

Lemma file_calls_opens fn {A} (r : res A) cs :
  file_calls fn r cs → follows open_of [basename fn] r cs.
Proof.
  intros [[-> Hr]|(rendered & r' & H & Hr)].
  - split; [apply prefix_nil|by rewrite Hr].
  - apply writer_calls_opens in H as [Hpre Hall]. split; [done|].
    rewrite Hr. apply Hall.
Qed.

Lemma writes_to_no_mkdir p c : writes_to p c → mkdir_of c = None.
Proof. by destruct c. Qed.

Lemma writes_to_no_symlink p c : writes_to p c → symlink_of c = None.
Proof. by destruct c. Qed.

Lemma omap_none {X} (proj : call → option X) cs :
  Forall (λ c, proj c = None) cs → omap proj cs = [].
Proof. induction 1 as [|c cs Hc _ IH]; simpl; [done|]. by rewrite Hc. Qed.

(** *** Composing orders of calls *)

Lemma follows_nothing {X A} (proj : call → option X) (r : res A) cs :
  omap proj cs = [] → follows proj [] r cs.
Proof. intros H. unfold follows. rewrite H. by split. Qed.

Lemma follows_bind {X A B} (proj : call → option X) e1 e2
    (m : M S A) (f : A → M S B) :
  emits m (follows proj e1) →
  (∀ a, emits (f a) (follows proj e2)) →
  emits (m ≫= f) (follows proj (e1 ++ e2)).
Proof.
  intros Hm Hf. unfold follows in *. eapply emits_bind; [apply Hm| |].
  - intros e cs [Hpre _]. split; [by apply prefix_app_r|done].
  - intros a cs1 [_ Hall]. eapply emits_mono; [apply Hf|].
    intros r cs2 [Hpre2 Hall2]. simpl. rewrite omap_app, (Hall eq_refl).
    split; [by apply prefix_app|]. intros Hr. by rewrite Hall2.
Qed.

Lemma follows_bind_l {X A B} (proj : call → option X) e
    (m : M S A) (f : A → M S B) :
  emits m (follows proj e) →
  (∀ a, emits (f a) (follows proj [])) →
  emits (m ≫= f) (follows proj e).
Proof. intros Hm Hf. rewrite <- (app_nil_r e). by apply follows_bind. Qed.

Lemma follows_bind_r {X A B} (proj : call → option X) e
    (m : M S A) (f : A → M S B) :
  emits m (follows proj []) →
  (∀ a, emits (f a) (follows proj e)) →
  emits (m ≫= f) (follows proj e).
Proof. intros Hm Hf. change e with ([] ++ e). by apply follows_bind. Qed.

Lemma quiet_follows {X A} (proj : call → option X) (m : M S A) :
  quiet m → emits m (follows proj []).
Proof.
  intros Hm. eapply emits_mono; [apply Hm|].
  intros r cs ->. by apply follows_nothing.
Qed.

Lemma all_bind {A B} (P : call → Prop) (m : M S A) (f : A → M S B) :
  emits m (λ _ cs, Forall P cs) →
  (∀ a, emits (f a) (λ _ cs, Forall P cs)) →
  emits (m ≫= f) (λ _ cs, Forall P cs).
Proof.
  intros Hm Hf. eapply emits_bind; [apply Hm|done|].
  intros a cs1 H1. eapply emits_mono; [apply Hf|].
  intros r cs2 H2. apply Forall_app. auto.
Qed.

Lemma quiet_all {A} (P : call → Prop) (m : M S A) :
  quiet m → emits m (λ _ cs, Forall P cs).
Proof. intros Hm. eapply emits_mono; [apply Hm|]. by intros r cs ->. Qed.

(** *** The loop over the files *)

Lemma render_files_loop_app pre post depends w :
  render_files_loop (pre ++ post) depends w
  = (render_files_loop pre depends ≫= render_files_loop post) w.
Proof.
  revert depends w. induction pre as [|fn pre IH]; intros depends w; simpl.
  - done.
  - rewrite !bind_run. destruct (render_file fn depends w) as [[d|e] w']; [|done].
    rewrite IH. by rewrite bind_run.
Qed.

Lemma render_files_loop_writes fns depends :
  emits (render_files_loop fns depends : M S _) (λ _ cs,
    Forall (λ c, ∃ fn, fn ∈ fns ∧ writes_to (basename fn) c) cs).
Proof.
  revert depends. induction fns as [|fn fns IH]; intros depends; simpl.
  - by apply emits_ret.
  - apply all_bind.
    + eapply emits_mono; [apply render_file_emits|].
      intros r cs H%file_calls_writes.
      eapply Forall_impl; [exact H|]. intros c Hc. exists fn. split; [left|done].
    + intros d. eapply emits_mono; [apply IH|]. intros r cs H.
      eapply Forall_impl; [exact H|]. intros c (fn' & Hin & Hc).
      exists fn'. split; [by right|done].
Qed.

Lemma render_files_loop_text fns depends :
  emits (render_files_loop fns depends : M S _) (λ _ cs,
    Forall (λ c, ¬ writes_notebook c) cs).
Proof.
  revert depends. induction fns as [|fn fns IH]; intros depends; simpl.
  - by apply emits_ret.
  - apply all_bind; [|done].
    eapply emits_mono; [apply render_file_emits|].
    intros r cs. apply file_calls_text.
Qed.

Lemma render_files_loop_opens fns depends :
  emits (render_files_loop fns depends : M S _)
    (follows open_of (basename <$> fns)).
Proof.
  revert depends. induction fns as [|fn fns IH]; intros depends; simpl.
  - apply emits_ret. by apply follows_nothing.
  - apply (follows_bind _ [basename fn]); [|done].
    eapply emits_mono; [apply render_file_emits|].
    intros r cs. apply file_calls_opens.
Qed.

Lemma render_files_loop_no {X} (proj : call → option X) fns depends :
  (∀ p c, writes_to p c → proj c = None) →
  emits (render_files_loop fns depends : M S _) (follows proj []).
Proof.
  intros Hproj. eapply emits_mono; [apply render_files_loop_writes|].
  intros r cs H. apply follows_nothing, omap_none.
  eapply Forall_impl; [exact H|]. intros c (fn & _ & Hc). eauto.
Qed.

(** *** The loop over the dependencies *)

Lemma link_dependency_emits dep :
  emits (link_dependency dep : M S ()) (λ _ cs,
    cs = [] ∨ ∃ src dst, link_of dep = Some (src, dst) ∧ cs = [Csymlink src dst]).
Proof.
  destruct dep as [d| |]; simpl; try (apply emits_raise; by left).
  apply (emits_bind _ _ (λ _ cs, cs = [])); [apply quiet_exists| |].
  { intros e cs ->. by left. }
  intros ex cs ->. destruct ex; simpl.
  - apply emits_ret. by left.
  - apply emits_syscall. intros r. right. eauto.
Qed.

Lemma link_dependencies_emits deps :
  emits (link_dependencies deps : M S ()) (λ _ cs,
    Forall (λ c, is_Some (symlink_of c)) cs
    ∧ omap symlink_of cs `sublist_of` omap link_of deps).
Proof.
  induction deps as [|dep deps IH]; simpl.
  - by apply emits_ret.
  - eapply emits_bind; [apply link_dependency_emits| |].
    + intros e cs [->|(src & dst & Hl & ->)]; simpl.
      * split; [done|apply sublist_nil_l].
      * rewrite Hl. split; [repeat constructor; by eexists|].
        by apply sublist_skip, sublist_nil_l.
    + intros [] cs1 Hcs1. eapply emits_mono; [apply IH|].
      intros r cs2 [Hall Hsub].
      destruct Hcs1 as [->|(src & dst & Hl & ->)]; simpl.
      * split; [done|]. destruct (link_of dep); [by apply sublist_cons|done].
      * rewrite Hl. split; [constructor; [by eexists|done]|by apply sublist_skip].
Qed.

Lemma link_dependencies_no {X} (proj : call → option X) deps :
  (∀ c, is_Some (symlink_of c) → proj c = None) →
  emits (link_dependencies deps : M S ()) (follows proj []).
Proof.
  intros Hproj. eapply emits_mono; [apply link_dependencies_emits|].
  intros r cs [H _]. apply follows_nothing, omap_none.
  eapply Forall_impl; [exact H|]. eauto.
Qed.

(** *** Descending into the subdirectories *)

Lemma syscall_follows_none {X} (proj : call → option X) c (f : S → res S) :
  proj c = None → emits (syscall c f) (follows proj []).
Proof.
  intros Hc. apply emits_syscall. intros r.
  apply follows_nothing. simpl. by rewrite Hc.
Qed.

Lemma syscall_follows_some {X} (proj : call → option X) c (f : S → res S) x :
  proj c = Some x → emits (syscall c f) (follows proj [x]).
Proof.
  intros Hc. apply emits_syscall. intros r.
  unfold follows. simpl. by rewrite Hc.
Qed.

Lemma render_subdir_mkdirs (render_sub : M S ()) sub_name e :
  emits render_sub (follows mkdir_of e) →
  emits (render_subdir render_sub sub_name) (follows mkdir_of (sub_name :: e)).
Proof.
  intros Hsub. unfold render_subdir.
  apply follows_bind_r; [by apply syscall_follows_none|]. intros _.
  apply (follows_bind _ [sub_name] e); [by apply syscall_follows_some|]. intros _.
  apply follows_bind_r; [apply quiet_follows, quiet_abspath|]. intros pwd.
  apply follows_bind_r; [by apply syscall_follows_none|]. intros _.
  apply follows_bind_l; [done|]. intros _.
  by apply syscall_follows_none.
Qed.

Lemma render_subdir_opens (render_sub : M S ()) sub_name e :
  emits render_sub (follows open_of e) →
  emits (render_subdir render_sub sub_name) (follows open_of e).
Proof.
  intros Hsub. unfold render_subdir.
  apply follows_bind_r; [by apply syscall_follows_none|]. intros _.
  apply follows_bind_r; [by apply syscall_follows_none|]. intros _.
  apply follows_bind_r; [apply quiet_follows, quiet_abspath|]. intros pwd.
  apply follows_bind_r; [by apply syscall_follows_none|]. intros _.
  apply follows_bind_l; [done|]. intros _.
  by apply syscall_follows_none.
Qed.

Lemma render_subdir_text (render_sub : M S ()) sub_name :
  emits render_sub (λ _ cs, Forall (λ c, ¬ writes_notebook c) cs) →
  emits (render_subdir render_sub sub_name)
    (λ _ cs, Forall (λ c, ¬ writes_notebook c) cs).
Proof.
  intros Hsub. unfold render_subdir.
  assert (Hsys : ∀ c (f : S → res S), (∀ p nb, c ≠ Copen_w p nb) →
            emits (syscall c f) (λ _ cs, Forall (λ c, ¬ writes_notebook c) cs)).
  { intros c f Hc. apply emits_syscall. intros r. repeat constructor.
    destruct c; simpl; auto. by destruct (Hc fn c). }
  apply all_bind; [by apply Hsys|]. intros _.
  apply all_bind; [by apply Hsys|]. intros _.
  apply all_bind; [apply quiet_all, quiet_abspath|]. intros pwd.
  apply all_bind; [by apply Hsys|]. intros _.
  apply all_bind; [done|]. intros _.
  by apply Hsys.
Qed.

(** *** The whole tree *)

Lemma TemplateDir_tree_ind (P : TemplateDir → Prop) :
  (∀ n fns subs, Forall P subs → P (mkTemplateDir n fns subs)) →
  ∀ t, P t.
Proof.
  intros Hnode. fix IH 1. intros [n fns subs]. apply Hnode.
  induction subs as [|s subs IHsubs]; constructor; [apply IH|apply IHsubs].
Qed.

Variable set_order : list hashable → list hashable.

Lemma render_mkdirs t :
  emits (render set_order t : M S ()) (follows mkdir_of (all_dirs t)).
Proof.
  induction t as [n fns subs IH] using TemplateDir_tree_ind. simpl.
  apply follows_bind_r.
  { apply render_files_loop_no. apply writes_to_no_mkdir. }
  intros depends.
  apply follows_bind_r.
  { apply link_dependencies_no. intros [] [? ?]; naive_solver. }
  intros _.
  induction IH as [|s subs Hs _ IHsubs]; simpl.
  - apply emits_ret. by apply follows_nothing.
  - apply (follows_bind _ (dir_name s :: all_dirs s)); [|done].
    by apply render_subdir_mkdirs.
Qed.

Lemma render_opens t :
  emits (render set_order t : M S ())
    (follows open_of (basename <$> all_files t)).
Proof.
  induction t as [n fns subs IH] using TemplateDir_tree_ind. simpl.
  rewrite fmap_app. apply follows_bind; [apply render_files_loop_opens|].
  intros depends.
  apply follows_bind_r.
  { apply link_dependencies_no. intros [] [? ?]; naive_solver. }
  intros _.
  induction IH as [|s subs Hs _ IHsubs]; simpl.
  - apply emits_ret. by apply follows_nothing.
  - rewrite fmap_app. apply follows_bind; [|done].
    by apply render_subdir_opens.
Qed.

Lemma render_text t :
  emits (render set_order t : M S ())
    (λ _ cs, Forall (λ c, ¬ writes_notebook c) cs).
Proof.
  induction t as [n fns subs IH] using TemplateDir_tree_ind. simpl.
  apply all_bind; [apply render_files_loop_text|]. intros depends.
  apply all_bind.
  { eapply emits_mono; [apply link_dependencies_emits|].
    intros r cs [H _]. eapply Forall_impl; [exact H|].
    intros [] [? ?]; naive_solver. }
  intros _.
  induction IH as [|s subs Hs _ IHsubs]; simpl.
  - by apply emits_ret.
  - apply all_bind; [|done]. by apply render_subdir_text.
Qed.

(** *** File extensions *)

Lemma split_from_plain sep cur s :
  sep ∉ s → split_from sep cur s = [cur ++ s].
Proof.
  revert cur. induction s as [|c s IH]; intros cur Hs; simpl.
  - by rewrite app_nil_r.
  - unfold chr_eqb. destruct (Ascii.eqb_spec c sep) as [->|Hne].
    + exfalso. apply Hs. left.
    + rewrite IH by (intros Hin; apply Hs; by right).
      by rewrite <- app_assoc.
Qed.

Lemma split_from_nonempty sep cur s : split_from sep cur s ≠ [].
Proof.
  revert cur. induction s as [|c s IH]; intros cur; simpl; [done|].
  destruct (chr_eqb c sep); [done|apply IH].
Qed.

Lemma last_item_cons x l : l ≠ [] → last_item (x :: l) = last_item l.
Proof. by destruct l. Qed.

Lemma last_split_from sep cur stem e :
  sep ∉ e → last_item (split_from sep cur (stem ++ sep :: e)) = e.
Proof.
  intros He. revert cur. induction stem as [|c stem IH]; intros cur; simpl.
  - unfold chr_eqb. rewrite Ascii.eqb_refl.
    rewrite last_item_cons by apply split_from_nonempty.
    by rewrite split_from_plain.
  - destruct (chr_eqb c sep); [|apply IH].
    rewrite last_item_cons by apply split_from_nonempty. apply IH.
Qed.

Lemma extension_py stem : extension (stem ++ str ".py") = str "py".
Proof.
  apply (last_split_from "."%char [] stem (str "py")).
  apply (bool_decide_unpack _). by vm_compute.
Qed.

Lemma extension_sh stem : extension (stem ++ str ".sh") = str "sh".
Proof.
  apply (last_split_from "."%char [] stem (str "sh")).
  apply (bool_decide_unpack _). by vm_compute.
Qed.

(** *** The name of the notebook *)

Lemma startswith_app sub s t :
  startswith sub s = true → startswith sub (s ++ t) = true.
Proof.
  revert s. induction sub as [|a sub IH]; intros [|b s]; simpl; try done.
  intros [-> Hs]%andb_prop. simpl. by apply IH.
Qed.

Lemma startswith_py_inside c stem :
  startswith (str ".py") (c :: stem ++ str ".py") = startswith (str ".py") (c :: stem)
  ∧ (startswith (str ".py") (c :: stem) = true → (2 ≤ length stem)%nat).
Proof.
  destruct stem as [|a [|b stem]]; simpl.
  - rewrite !andb_false_r. by split.
  - rewrite !andb_false_r. by split.
  - split; [|lia]. by rewrite !andb_true_r.
Qed.

Lemma replace_py_suffix k stem :
  (k ≤ length stem)%nat →
  replace_from (str ".py") (str ".ipynb") k (stem ++ str ".py")
  = replace_from (str ".py") (str ".ipynb") k stem ++ str ".ipynb".
Proof.
  revert k. induction stem as [|c stem IH]; intros k Hk.
  - assert (k = 0%nat) as -> by (simpl in Hk; lia). done.
  - destruct (startswith_py_inside c stem) as [Heq Hlen].
    destruct k as [|k]; [|apply IH; simpl in Hk; lia].
    change ((c :: stem) ++ str ".py") with (c :: (stem ++ str ".py")).
    change (replace_from (str ".py") (str ".ipynb") 0 (c :: stem ++ str ".py"))
      with (if startswith (str ".py") (c :: stem ++ str ".py")
            then str ".ipynb" ++ replace_from (str ".py") (str ".ipynb") 2 (stem ++ str ".py")
            else c :: replace_from (str ".py") (str ".ipynb") 0 (stem ++ str ".py")).
    change (replace_from (str ".py") (str ".ipynb") 0 (c :: stem))
      with (if startswith (str ".py") (c :: stem)
            then str ".ipynb" ++ replace_from (str ".py") (str ".ipynb") 2 stem
            else c :: replace_from (str ".py") (str ".ipynb") 0 stem).
    rewrite Heq. destruct (startswith (str ".py") (c :: stem)).
    + rewrite IH by auto. by rewrite app_assoc.
    + rewrite IH by lia. done.
Qed.

Lemma ipynb_name_py stem :
  ipynb_name (stem ++ str ".py") = ipynb_name stem ++ str ".ipynb".
Proof. apply replace_py_suffix. lia. Qed.

(** *** Linking a name that exists *)

Lemma link_dependency_existing dep w :
  sys_exists (basename dep) (sys w) = true →
  link_dependency (HStr dep) w = (Ok (), w).
Proof.
  intros Hex. unfold link_dependency. rewrite bind_run.
  unfold os_path_exists. by rewrite Hex.
Qed.

Lemma link_dependency_twice dep w w1 :
  link_dependency (HStr dep) w = (Ok (), w1) →
  sys_exists (basename dep) (sys w1) = true →
  (link_dependency (HStr dep);; link_dependency (HStr dep)) w = (Ok (), w1).
Proof.
  intros H1 Hex. rewrite bind_run, H1. by apply link_dependency_existing.
Qed.

(** ** The claims about a run *)

(** C8: when the render or the write of the k-th declared file of a node
    raises (the files before it having gone through), the render of the
    node raises the same error and ends in the world the failure left:
    every call made was a backup, an open or a chmod on one of the first k
    files, so no later file was written, no link was made and no
    subdirectory was created or entered. *)
Theorem render_stops_at_failing_file name pre fn post subs w depends w1 e w2 :
  render_files_loop pre [] w = (Ok depends, w1) →
  render_file fn depends w1 = (Raise e, w2) →
  render set_order (mkTemplateDir name (pre ++ fn :: post) subs) w = (Raise e, w2)
  ∧ ∃ cs, calls w2 = calls w ++ cs
      ∧ Forall (λ c, ∃ fn', fn' ∈ pre ++ [fn] ∧ writes_to (basename fn') c) cs
      ∧ omap symlink_of cs = []
      ∧ omap mkdir_of cs = []
      ∧ Forall (λ c, ∀ path, c ≠ Cchdir path) cs.
Proof.
  intros Hpre Hfn. split.
  - simpl. rewrite bind_run. unfold render_files; simpl.
    rewrite render_files_loop_app, bind_run, Hpre. simpl.
    rewrite bind_run, Hfn. done.
  - destruct (render_files_loop_writes pre [] w) as (cs1 & Hcs1 & H1).
    destruct (render_file_emits fn depends w1) as (cs2 & Hcs2 & H2%file_calls_writes).
    rewrite Hpre in Hcs1. rewrite Hfn in Hcs2. simpl in *.
    assert (Hall : Forall (λ c, ∃ fn', fn' ∈ pre ++ [fn] ∧ writes_to (basename fn') c)
                     (cs1 ++ cs2)).
    { apply Forall_app. split.
      - eapply Forall_impl; [exact H1|]. intros c (fn' & Hin & Hc).
        exists fn'. split; [|done]. apply elem_of_app. by left.
      - eapply Forall_impl; [exact H2|]. intros c Hc.
        exists fn. split; [|done]. apply elem_of_app. right. left. }
    exists (cs1 ++ cs2). split; [by rewrite Hcs2, Hcs1, app_assoc|].
    split; [done|]. repeat split.
    + apply omap_none. eapply Forall_impl; [exact Hall|].
      intros c (fn' & _ & Hc). by eapply writes_to_no_symlink.
    + apply omap_none. eapply Forall_impl; [exact Hall|].
      intros c (fn' & _ & Hc). by eapply writes_to_no_mkdir.
    + eapply Forall_impl; [exact Hall|].
      intros c (fn' & _ & Hc) path ->. done.
Qed.

(** C2 (amended): once [render] has backed up and created the directory
    of a child and has changed into it, having saved the absolute path
    [pwd] of the working directory, the working directory is restored, by
    [chdir(pwd)], when the render of the child returns; when the render of
    the child raises, the error goes to the caller at once, no [chdir] is
    made, and the world is the one the failing render left. *)
Theorem render_subdir_restores_on_return subdir w w1 w2 :
  let sub_name := dir_name subdir in
  let pwd := sys_abspath (str ".") (sys w1) in
  let step := render_subdir (render set_order subdir) sub_name in
  (backup sub_name;; os_mkdir sub_name) w = (Ok (), w1) →
  os_chdir sub_name w1 = (Ok (), w2) →
  match render set_order subdir w2 with
  | (Ok _, w3) =>
      step w = os_chdir pwd w3
      ∧ calls (step w).2 = calls w3 ++ [Cchdir pwd]
  | (Raise e, w3) =>
      step w = (Raise e, w3)
  end.
Proof.
  intros sub_name pwd step Hmk Hcd.
  assert (Hstep : step w = (render set_order subdir ≫= λ _, os_chdir pwd) w2).
  { unfold step, render_subdir. rewrite bind_run in Hmk. rewrite bind_run.
    destruct (backup sub_name w) as [[[]|e0] w0]; [|done].
    rewrite bind_run, Hmk. rewrite bind_run. simpl.
    by rewrite bind_run, Hcd. }
  rewrite Hstep, bind_run.
  destruct (render set_order subdir w2) as [[[]|e] w3]; [|done].
  split; [done|]. unfold os_chdir, syscall. by destruct (sys_chdir pwd (sys w3)).
Qed.

Lemma link_dependencies_calls deps w :
  calls (link_dependencies deps w).2 = calls w ++ link_calls deps (sys w).
Proof.
  revert w. induction deps as [|dep deps IH]; intros w; simpl.
  - by rewrite app_nil_r.
  - rewrite bind_run. destruct dep as [d| |]; simpl; try by rewrite app_nil_r.
    rewrite bind_run. unfold os_path_exists at 1.
    destruct (sys_exists (basename d) (sys w)); simpl; [apply IH|].
    unfold os_symlink, syscall.
    destruct (sys_symlink _ _ (sys w)) as [s'|e]; simpl; [|done].
    rewrite IH. simpl. by rewrite <- app_assoc.
Qed.

Lemma link_calls_symlinks deps : ∀ s : S,
  Forall (λ c, is_Some (symlink_of c)) (link_calls deps s)
  ∧ omap symlink_of (link_calls deps s) `sublist_of` omap link_of deps.
Proof.
  induction deps as [|dep deps IH]; intros s; simpl.
  - split; [constructor|done].
  - destruct dep as [d| |]; simpl; try (split; [constructor|apply sublist_nil_l]).
    destruct (sys_exists (basename d) s).
    + destruct (IH s) as [Hall Hsub]. split; [done|by apply sublist_cons].
    + destruct (sys_symlink _ _ s) as [s'|e]; simpl.
      * destruct (IH s') as [Hall Hsub].
        split; [constructor; [by eexists|done]|by apply sublist_skip].
      * split; [repeat constructor; by eexists|].
        apply sublist_skip, sublist_nil_l.
Qed.

Lemma render_subdirs_head subs :
  emits (render_subdirs (render set_order) subs : M S ()) (λ _ cs,
    match subs with
    | [] => cs = []
    | sub :: _ => ∃ rest, cs = Cbackup (dir_name sub) :: rest
    end).
Proof.
  assert (Hsubs : ∀ l, emits (render_subdirs (render set_order) l : M S ())
                         (λ _ cs, Forall (λ c, ¬ writes_notebook c) cs)).
  { induction l as [|s l IHl]; simpl; [by apply emits_ret|].
    apply all_bind; [|done]. apply render_subdir_text, render_text. }
  destruct subs as [|sub subs]; simpl; [by apply emits_ret|].
  eapply (emits_bind _ _ (λ _ cs, ∃ rest, cs = Cbackup (dir_name sub) :: rest)).
  - unfold render_subdir.
    eapply emits_bind; [apply syscall_emits| |].
    + intros e cs ->. by eexists.
    + intros [] cs1 ->.
      assert (Hrest : emits (os_mkdir (dir_name sub) ≫= λ _,
                        os_path_abspath (str ".") ≫= λ pwd,
                        os_chdir (dir_name sub) ≫= λ _,
                        render set_order sub ≫= λ _, os_chdir pwd)
                        (λ _ cs, Forall (λ _ : call, True) cs)).
      { apply all_bind; [apply emits_syscall; by repeat constructor|]. intros _.
        apply all_bind; [apply quiet_all, quiet_abspath|]. intros pwd.
        apply all_bind; [apply emits_syscall; by repeat constructor|]. intros _.
        apply all_bind; [|intros _; apply emits_syscall; by repeat constructor].
        eapply emits_mono; [apply render_text|].
        intros r cs H. eapply Forall_impl; [exact H|done]. }
      eapply emits_mono; [exact Hrest|]. intros r cs2 _. by eexists.
  - intros e cs H. exact H.
  - intros [] cs1 [rest ->]. eapply emits_mono; [apply Hsubs|].
    intros r cs2 _. by eexists.
Qed.

(** C4 (amended): in every run on a layout tree, whatever the order in
    which sets are visited, the directories are created in declared order
    (depth first) and the files are opened in declared order; a run that
    raises has made a first part of these calls.  The calls of a run on
    a node come in three parts.  First the calls on the files of the node,
    opened in declared order, with no link among them.  Then, when
    [render_files] has returned [depends], the links, which are the calls
    of the loop over [depends] in the order in which the set is visited:
    symbolic links only, for names in that order, leaving out the names
    that exist.  Then the calls for the subdirectories, which start with
    the backup of the first one. *)
Theorem render_follows_declaration t :
  emits (render set_order t : M S ()) (λ r cs,
    follows mkdir_of (all_dirs t) r cs
    ∧ follows open_of (basename <$> all_files t) r cs)
  ∧ ∀ w, ∃ cs_files cs_links cs_subs,
      calls (render set_order t w).2 = calls w ++ cs_files ++ cs_links ++ cs_subs
      ∧ Forall (λ c, ∃ fn, fn ∈ files t ∧ writes_to (basename fn) c) cs_files
      ∧ follows open_of (basename <$> files t) (render_files t w).1 cs_files
      ∧ match render_files t w with
        | (Ok depends, w1) =>
            cs_links = link_calls (set_order depends) (sys w1)
            ∧ Forall (λ c, is_Some (symlink_of c)) cs_links
            ∧ omap symlink_of cs_links `sublist_of` omap link_of (set_order depends)
        | (Raise _, _) => cs_links = [] ∧ cs_subs = []
        end
      ∧ match subdirs t with
        | [] => cs_subs = []
        | sub :: _ => cs_subs = [] ∨ ∃ rest, cs_subs = Cbackup (dir_name sub) :: rest
        end.
Proof.
  split; [apply emits_and; [apply render_mkdirs|apply render_opens]|].
  intros w. destruct t as [n fns subs].
  destruct (emits_and _ _ _ (render_files_loop_writes fns [])
              (render_files_loop_opens fns []) w) as (cs_files & Hcs & Hwrites & Hopens).
  unfold render_files. cbn [files subdirs]. cbn [render]. unfold render_files.
  cbn [files]. rewrite bind_run.
  destruct (render_files_loop fns [] w) as [[depends|e] w1]; simpl in Hcs, Hopens.
  - pose proof (link_dependencies_calls (set_order depends) w1) as Hlinks.
    destruct (link_calls_symlinks (set_order depends) (sys w1)) as [Hall Hsub].
    exists cs_files, (link_calls (set_order depends) (sys w1)).
    rewrite bind_run.
    destruct (link_dependencies (set_order depends) w1) as [[[]|e] w2];
      simpl in Hlinks.
    + destruct (render_subdirs_head subs w2) as (cs_subs & Hsubs & Hhead).
      exists cs_subs. rewrite Hsubs, Hlinks, Hcs, <- !app_assoc.
      split; [done|]. split; [done|]. split; [exact Hopens|]. split; [done|].
      destruct subs; [done|by right].
    + exists []. simpl. rewrite Hlinks, Hcs, app_nil_r, <- !app_assoc.
      split; [done|]. split; [done|]. split; [exact Hopens|]. split; [done|].
      destruct subs; [done|by left].
  - exists cs_files, [], []. simpl. rewrite Hcs, !app_nil_r.
    split; [done|]. split; [done|]. split; [exact Hopens|]. split; [done|].
    destruct subs; [done|by left].
Qed.

(** C10: [render_files] builds every [Template] with the notebook flag at
    its default [False].  The writer of a file is then the one
    [write_funcs] holds for its extension without the flag: the python
    writer for [.py], the shell writer for [.sh], the generic writer for
    every other extension, never the notebook writer; each file is
    written as text under its own base name, and a run started by
    [TemplateProject.do] writes no notebook. *)
Theorem do_never_selects_notebook_writer :
  (∀ fn depends, emits (render_file fn depends : M S _) (file_calls fn))
  ∧ (∀ stem, write_funcs false (extension (stem ++ str ".py")) = WPython)
  ∧ (∀ stem, write_funcs false (extension (stem ++ str ".sh")) = WShell)
  ∧ (∀ fn, extension fn ≠ str "py" → extension fn ≠ str "sh" →
       write_funcs false (extension fn) = WGeneric)
  ∧ (∀ ext, write_funcs false ext ≠ WIpython)
  ∧ emits (TemplateProject_do set_order : M S ()) (λ r cs,
      Forall (λ c, ¬ writes_notebook c) cs
      ∧ follows open_of (basename <$> all_files get_layout) r cs).
Proof.
  split; [apply render_file_emits|].
  split; [intros stem; by rewrite extension_py|].
  split; [intros stem; by rewrite extension_sh|].
  split.
  { intros fn Hpy Hsh. unfold write_funcs.
    by rewrite !bool_decide_eq_false_2. }
  split; [apply write_funcs_not_ipython|].
  apply emits_and; [apply render_text|apply render_opens].
Qed.

(** C7: each of the four writers first calls [backup] on the path it is
    about to write, and opens that path only when the backup has
    returned; when the backup raises nothing is opened.  As [backup] moves
    an existing file aside, the path does not exist when it is opened, so
    nothing is overwritten, in whatever world the writer runs.  The
    notebook writer does this on the name with [.py] replaced by [.ipynb]. *)
Theorem writers_backup_before_open f templ_fn rendered w :
  let p := writer_target f templ_fn in
  let c := writer_content f templ_fn rendered in
  let backed_up s1 := mkWorld s1 (loader_meta w) (calls w ++ [Cbackup p]) in
  (∀ s1, sys_backup p (sys w) = Ok s1 → sys_exists p s1 = false) →
  (∃ cs, calls (call_writer f templ_fn rendered w).2 = calls w ++ cs
         ∧ writer_calls f p c (call_writer f templ_fn rendered w).1 cs)
  ∧ match sys_backup p (sys w) with
    | Raise e => call_writer f templ_fn rendered w = (Raise e, backed_up (sys w))
    | Ok s1 =>
        sys_exists p s1 = false
        ∧ call_writer f templ_fn rendered w
          = match f with
            | WShell => (open_w p c;; chmod_plus_x p) (backed_up s1)
            | _ => open_w p c (backed_up s1)
            end
    end
  ∧ (f = WIpython → ∀ stem, templ_fn = stem ++ str ".py" →
       p = ipynb_name stem ++ str ".ipynb").
Proof.
  intros p c backed_up Hbackup. split; [apply call_writer_emits|]. split.
  - subst p c backed_up.
    destruct f; simpl in *;
      unfold write_generic, write_python, write_shell, write_ipython;
      rewrite bind_run;
      (destruct (sys_backup _ (sys w)) as [s1|e] eqn:Hb;
       unfold backup, syscall at 1; rewrite Hb;
       [split; [by apply Hbackup|done]|done]).
  - intros -> stem ->. apply ipynb_name_py.
Qed.

End Runs.

(** ** More on the loader *)

Section LoaderRuns.

Context {S : Type} {Sys : System S} {Lib : Libraries}.
Implicit Types w : World S.

Lemma with_meta_twice w fname (v v' : yaml) :
  with_meta (with_meta w fname v) fname v' = with_meta w fname v'.
Proof. unfold with_meta; simpl. by rewrite insert_insert_eq. Qed.

(** What [get_source] does, in one equation. *)
Lemma get_source_run template w :
  get_source template w =
    match package_get_source template with
    | None => (Raise TemplateNotFound, w)
    | Some (source, fname) =>
        let beg := find source beg_str in
        if bool_decide (beg = (-1)%Z) then
          (Ok (source, fname), with_meta w fname (YMap []))
        else
          let end_ := (find (slice source (Some beg) None) end_str + beg)%Z in
          match yaml_load (slice source (Some (beg + len beg_str)%Z) (Some end_)) with
          | Ok m => (Ok (slice source None (Some beg) ++ slice source (Some end_) None,
                         fname), with_meta w fname m)
          | Raise e => (Raise e, w)
          end
    end.
Proof.
  unfold get_source, super_get_source.
  destruct (package_get_source template) as [[source fname]|]; [|done].
  rewrite bind_run. simpl. case_bool_decide; [done|].
  unfold mbind, M_bind, lift. by destruct (yaml_load _).
Qed.

Lemma get_source_keeps template w :
  sys (get_source template w).2 = sys w
  ∧ calls (get_source template w).2 = calls w.
Proof.
  rewrite get_source_run.
  destruct (package_get_source template) as [[source fname]|]; [|done].
  simpl. case_bool_decide; [done|]. by destruct (yaml_load _).
Qed.

(** X1: Loading a template a second time gives the same answer and leaves the
    world as the first load left it. *)
Theorem get_source_again template w :
  get_source template (get_source template w).2 = get_source template w.
Proof.
  rewrite (get_source_run template w).
  destruct (package_get_source template) as [[source fname]|] eqn:Hsrc; simpl.
  - case_bool_decide as Hbeg.
    + simpl. rewrite get_source_run, Hsrc. simpl.
      rewrite bool_decide_eq_true_2 by done. by rewrite with_meta_twice.
    + destruct (yaml_load _) as [m|e] eqn:Hy; simpl;
        rewrite get_source_run, Hsrc; simpl;
        rewrite bool_decide_eq_false_2 by done; rewrite Hy;
        [by rewrite with_meta_twice|done].
  - by rewrite get_source_run, Hsrc.
Qed.

(** X2: A load touches neither the file system nor the record of calls, and
    in the metadata dictionary only the entry of the file loaded. *)
Theorem get_source_frame template w :
  let w' := (get_source template w).2 in
  sys w' = sys w
  ∧ calls w' = calls w
  ∧ ∀ k, (∀ source, package_get_source template ≠ Some (source, k)) →
         loader_meta w' !! k = loader_meta w !! k.
Proof.
  simpl. rewrite get_source_run.
  destruct (package_get_source template) as [[source fname]|] eqn:Hsrc; simpl;
    [|done].
  assert (Hk : ∀ v k, (∀ source', Some (source, fname) ≠ Some (source', k)) →
               loader_meta (with_meta w fname v) !! k = loader_meta w !! k).
  { intros v k Hne. simpl. apply lookup_insert_ne. intros ->. by apply (Hne source). }
  case_bool_decide; simpl.
  { split; [done|]. split; [done|]. intros k Hne. by apply Hk. }
  destruct (yaml_load _); simpl; (split; [done|]; split; [done|]); intros k Hne;
    [by apply Hk|done].
Qed.

Lemma get_template_run fn w :
  ENV_get_template fn w =
    match get_source fn w with
    | (Ok (source, fname), w1) =>
        match jinja_compile source with
        | Ok c => (Ok {| filename := fname; code := c |}, w1)
        | Raise e => (Raise e, w1)
        end
    | (Raise e, w1) => (Raise e, w1)
    end.
Proof.
  unfold ENV_get_template. rewrite bind_run.
  destruct (get_source fn w) as [[[source fname]|e] w1]; [|done].
  rewrite bind_run. unfold lift. by destruct (jinja_compile source).
Qed.

Lemma get_source_stores template w text fname w1 :
  get_source template w = (Ok (text, fname), w1) →
  is_Some (loader_meta w1 !! fname).
Proof.
  rewrite get_source_run.
  destruct (package_get_source template) as [[source fname']|]; [|done].
  simpl. case_bool_decide.
  - intros [= _ <- <-]. simpl. rewrite lookup_insert_eq. by eexists.
  - destruct (yaml_load _); [|done].
    intros [= _ <- <-]. simpl. rewrite lookup_insert_eq. by eexists.
Qed.

(** X3: [Template(fn, ipynb)], when it returns, has made no call and has left
    the file system alone; the metadata it holds is the entry of its file
    in the dictionary of the loader.  The lookup in that dictionary never
    fails: when the constructor raises, the error comes from the load or
    from the compilation of the template. *)
Theorem Template_init_meta fn ipynb w :
  match Template_init fn ipynb w with
  | (Ok t, w') =>
      template_fn t = fn
      ∧ write_func t = write_funcs ipynb (extension fn)
      ∧ loader_meta w' !! filename (template t) = Some (meta t)
      ∧ sys w' = sys w ∧ calls w' = calls w
  | (Raise e, w') => ENV_get_template fn w = (Raise e, w')
  end.
Proof.
  unfold Template_init. rewrite bind_run, get_template_run.
  destruct (get_source_keeps fn w) as [Hsys Hcalls].
  destruct (get_source fn w) as [[[source fname]|e] w1] eqn:Hsrc; [|done].
  simpl in Hsys, Hcalls.
  destruct (get_source_stores _ _ _ _ _ Hsrc) as [m Hm].
  destruct (jinja_compile source) as [c|e]; [|done].
  rewrite bind_run. unfold meta_get. simpl. rewrite Hm. simpl. done.
Qed.

Lemma Template_init_frame fn ipynb w :
  sys (Template_init fn ipynb w).2 = sys w
  ∧ calls (Template_init fn ipynb w).2 = calls w.
Proof.
  unfold Template_init. rewrite bind_run, get_template_run.
  destruct (get_source_keeps fn w) as [Hsys Hcalls].
  destruct (get_source fn w) as [[[source fname]|e] w1] eqn:Hsrc; [|done].
  simpl in Hsys, Hcalls.
  destruct (jinja_compile source) as [c|e]; [|done].
  rewrite bind_run. unfold meta_get. simpl.
  by destruct (loader_meta w1 !! fname).
Qed.

(** One turn of the loop of [render_files], step by step. *)
Lemma render_file_run fn depends w :
  render_file fn depends w =
    match Template_init fn false w with
    | (Ok t, w1) =>
        match py_in (str "depends") (meta t) with
        | Ok true =>
            match py_getitem (meta t) (str "depends") with
            | Ok v =>
                match py_iter v with
                | Ok new => (Template_render t ≫= λ _, mret (depends ++ new)) w1
                | Raise e => (Raise e, w1)
                end
            | Raise e => (Raise e, w1)
            end
        | Ok false => (Template_render t ≫= λ _, mret depends) w1
        | Raise e => (Raise e, w1)
        end
    | (Raise e, w1) => (Raise e, w1)
    end.
Proof.
  unfold render_file. rewrite bind_run.
  destruct (Template_init fn false w) as [[t|e] w1]; [|done].
  rewrite bind_run. unfold lift at 1.
  destruct (py_in _ (meta t)) as [[|]|e]; [| |done].
  - rewrite bind_run, bind_run. unfold lift at 1.
    destruct (py_getitem _ _) as [v|e]; [|done].
    rewrite bind_run. unfold lift at 1.
    by destruct (py_iter v).
  - by rewrite bind_run.
Qed.

(** X4: A metadata block that the decoder refuses: the error of the decoder
    leaves [get_source] and reaches the caller of [render_files]; the
    dictionary of the loader keeps what it held for the file, the file
    system is as it was and no call was made. *)
Theorem decode_error_reaches_render_files fn source fname e depends w :
  let beg := find source beg_str in
  let end_ := (find (slice source (Some beg) None) end_str + beg)%Z in
  package_get_source fn = Some (source, fname) →
  beg ≠ (-1)%Z →
  yaml_load (slice source (Some (beg + len beg_str)%Z) (Some end_)) = Raise e →
  get_source fn w = (Raise e, w)
  ∧ ∀ fns, render_files_loop (fn :: fns) depends w = (Raise e, w).
Proof.
  intros beg end_ Hsrc Hbeg Hyaml.
  assert (Hget : get_source fn w = (Raise e, w)).
  { rewrite get_source_run, Hsrc. simpl. fold beg.
    rewrite bool_decide_eq_false_2 by done. fold end_. by rewrite Hyaml. }
  split; [done|]. intros fns. simpl.
  rewrite bind_run, render_file_run.
  unfold Template_init. by rewrite bind_run, get_template_run, Hget.
Qed.

(** X5: A template whose metadata is not a container ([None] for an empty
    block, or a number): the test ['depends' in templ.meta] raises
    [TypeError]; the template is not rendered, no call is made and the
    file system is as it was. *)
Theorem metadata_not_a_container_raises fn depends w t w1 :
  Template_init fn false w = (Ok t, w1) →
  meta t = YNone ∨ (∃ z, meta t = YInt z) →
  render_file fn depends w = (Raise TypeError, w1)
  ∧ sys w1 = sys w ∧ calls w1 = calls w.
Proof.
  intros Hinit Hmeta.
  destruct (Template_init_frame fn false w) as [Hsys Hcalls].
  rewrite Hinit in Hsys, Hcalls. simpl in Hsys, Hcalls.
  split; [|done].
  rewrite render_file_run, Hinit.
  by destruct Hmeta as [->|[z ->]].
Qed.

(** X6: [render_files] only adds to the set of dependencies: what the files
    before [fn] asked for is still there, in the same insertion order,
    after the files that follow. *)
Theorem render_files_loop_accumulates fns depends w depends' w' :
  render_files_loop fns depends w = (Ok depends', w') →
  depends `prefix_of` depends'.
Proof.
  revert depends w. induction fns as [|fn fns IH]; intros depends w; simpl.
  - by intros [= <- _].
  - rewrite bind_run, render_file_run.
    destruct (Template_init fn false w) as [[t|e] w1]; [|done].
    destruct (py_in _ (meta t)) as [[|]|e]; [| |done].
    + destruct (py_getitem _ _) as [v|e]; [|done].
      destruct (py_iter v) as [new|e]; [|done].
      rewrite bind_run.
      destruct (Template_render t w1) as [[[]|e] w2]; [|done].
      intros H%IH. etrans; [|exact H]. by apply prefix_app_r.
    + rewrite bind_run.
      destruct (Template_render t w1) as [[[]|e] w2]; [|done].
      apply IH.
Qed.

Lemma Template_init_same fn ipynb w w' :
  (Template_init fn ipynb w).1 = (Template_init fn ipynb w').1.
Proof.
  assert (H : ∀ w0, (Template_init fn ipynb w0).1 =
    match package_get_source fn with
    | None => Raise TemplateNotFound
    | Some (source, fname) =>
        let beg := find source beg_str in
        let end_ := (find (slice source (Some beg) None) end_str + beg)%Z in
        let loaded :=
          if bool_decide (beg = (-1)%Z) then Ok (source, YMap [])
          else match yaml_load (slice source (Some (beg + len beg_str)%Z) (Some end_)) with
               | Ok m => Ok (slice source None (Some beg) ++ slice source (Some end_) None, m)
               | Raise e => Raise e
               end in
        match loaded with
        | Ok (text, m) =>
            match jinja_compile text with
            | Ok c => Ok {| template_fn := fn;
                            template := {| filename := fname; code := c |};
                            meta := m;
                            write_func := write_funcs ipynb (extension fn) |}
            | Raise e => Raise e
            end
        | Raise e => Raise e
        end
    end).
  { intros w0. unfold Template_init.
    rewrite bind_run, get_template_run, get_source_run.
    destruct (package_get_source fn) as [[source fname]|]; [|done].
    simpl. case_bool_decide.
    - destruct (jinja_compile source) as [c|e]; [|done].
      rewrite bind_run. unfold meta_get. simpl. by rewrite lookup_insert_eq.
    - destruct (yaml_load _) as [m|e]; [|done].
      destruct (jinja_compile _) as [c|e]; [|done].
      rewrite bind_run. unfold meta_get. simpl. by rewrite lookup_insert_eq. }
  by rewrite (H w), (H w').
Qed.

(** X7: What a template is depends on the template store alone: the result of
    [Template(fn, ipynb)], the object or the exception, is the same in
    every world, whatever the file system holds and whatever the
    dictionary of the loader held before. *)
Theorem Template_init_independent fn ipynb w w' :
  (Template_init fn ipynb w).1 = (Template_init fn ipynb w').1.
Proof. apply Template_init_same. Qed.

(** X8: The dependencies [render_files] returns are those the templates
    declare: two runs over the same files that both return, in whatever
    worlds they start, return the same dependencies. *)
Theorem render_files_loop_same_depends fns depends w w' d1 w1 d2 w2 :
  render_files_loop fns depends w = (Ok d1, w1) →
  render_files_loop fns depends w' = (Ok d2, w2) →
  d1 = d2.
Proof.
  revert depends w w'. induction fns as [|fn fns IH]; intros depends w w'; simpl.
  - by intros [= <- _] [= <- _].
  - rewrite !bind_run, !render_file_run.
    pose proof (Template_init_same fn false w w') as Hsame.
    destruct (Template_init fn false w) as [[t|e] wa];
      destruct (Template_init fn false w') as [[t'|e'] wb];
      simpl in Hsame; try done.
    injection Hsame as <-.
    destruct (py_in _ (meta t)) as [[|]|e]; [| |done].
    + destruct (py_getitem _ _) as [v|e]; [|done].
      destruct (py_iter v) as [new|e]; [|done].
      rewrite !bind_run.
      destruct (Template_render t wa) as [[[]|e] wa']; [|done].
      destruct (Template_render t wb) as [[[]|e] wb']; [|done].
      apply IH.
    + rewrite !bind_run.
      destruct (Template_render t wa) as [[[]|e] wa']; [|done].
      destruct (Template_render t wb) as [[[]|e] wb']; [|done].
      apply IH.
Qed.

End LoaderRuns.

(** ** The notebook writer *)

Section Notebook.

Lemma line_rest_Some s title :
  line_rest s = Some title → ∃ rest, s = title ++ nl :: rest.
Proof.
  revert title. induction s as [|c s IH]; intros title; simpl; [done|].
  unfold chr_eqb. destruct (Ascii.eqb_spec c nl) as [->|Hc].
  - intros [= <-]. by exists s.
  - destruct (line_rest s) as [t|]; [|done]. simpl.
    intros [= <-]. destruct (IH t eq_refl) as [rest ->]. by exists rest.
Qed.

Lemma match_heading_Some s title :
  match_heading s = Some title →
  ∃ rest, s = heading_mark ++ title ++ nl :: rest.
Proof.
  unfold match_heading.
  destruct (startswith heading_mark s) eqn:E; [|done].
  apply startswith_spec in E as [post ->].
  change (drop 3 (heading_mark ++ post)) with post.
  intros [rest ->]%line_rest_Some. by exists rest.
Qed.

Lemma rejoin_re_split_from s : ∀ skip cur,
  rejoin (re_split_from skip cur s) = cur ++ drop skip s.
Proof.
  induction s as [|c s IH]; intros skip cur.
  - simpl. by rewrite drop_nil, app_nil_r.
  - destruct skip as [|k]; [|by apply IH].
    cbn [re_split_from].
    destruct (match_heading (c :: s)) as [title|] eqn:E.
    + apply match_heading_Some in E as [rest E].
      cbn [rejoin]. rewrite IH. simpl drop at 2. rewrite E.
      injection E as -> ->. simpl.
      do 6 f_equal.
      rewrite cons_middle, app_assoc. apply drop_app_length'.
      rewrite length_app. simpl. lia.
    + rewrite IH. simpl. by rewrite <- app_assoc.
Qed.

(** X9: [re.split] on the heading pattern loses no character: putting the
    heading mark and the newline back around every captured title gives
    the rendered text again. *)
Theorem re_split_heading_rejoin text :
  rejoin (re_split_heading text) = text.
Proof. unfold re_split_heading. by rewrite rejoin_re_split_from. Qed.

Lemma re_split_from_odd s : ∀ skip cur,
  ∃ k, length (re_split_from skip cur s) = Datatypes.S (2 * k).
Proof.
  induction s as [|c s IH]; intros skip cur.
  - by exists 0%nat.
  - destruct skip as [|k]; [|by apply IH].
    cbn [re_split_from].
    destruct (match_heading (c :: s)) as [title|]; [|by apply IH].
    destruct (IH (3 + length title)%nat []) as [k Hk].
    exists (Datatypes.S k). cbn [length]. rewrite Hk. lia.
Qed.

Lemma every_second_lookup {A} (s : list A) : ∀ i,
  every_second s !! i = s !! (2 * i)%nat.
Proof.
  induction s as [s IH] using (induction_ltof1 _ length). unfold ltof in IH.
  intros i. destruct s as [|x [|y s]]; [done| |].
  - destruct i as [|i]; [done|]. simpl. by replace (i + Datatypes.S (i + 0))%nat
      with (Datatypes.S (2 * i)) by lia.
  - destruct i as [|i]; [done|].
    replace (2 * Datatypes.S i)%nat with (Datatypes.S (Datatypes.S (2 * i))) by lia.
    simpl. apply IH. simpl. lia.
Qed.

Lemma every_second_length {A} k : ∀ s : list A,
  length s = Datatypes.S (2 * k) → length (every_second s) = Datatypes.S k.
Proof.
  induction k as [|k IH]; intros [|x [|y s]]; simpl; intros Hs; try lia.
  f_equal. apply IH. lia.
Qed.

Lemma slice_drop_last {A} (s : list A) :
  slice s None (Some (-1)%Z) = take (length s - 1) s.
Proof.
  unfold slice, clamp_index, len; simpl.
  by replace (Z.to_nat (Z.max 0 (-1 + Z.of_nat (length s))) - 0)%nat
    with (length s - 1)%nat by lia.
Qed.

Lemma slice_drop_first {A} (s : list A) : slice s (Some 1%Z) None = drop 1 s.
Proof. apply (slice_onwards s 1). Qed.

Lemma cells_lookup (ps : list (pystr * pystr)) : ∀ i,
  let cs := flat_map (λ '(heading, content),
              [ new_markdown_cell (str "## " ++ strip heading);
                new_code_cell (strip content) ]) ps in
  cs !! (2 * i)%nat
    = (λ p, new_markdown_cell (str "## " ++ strip p.1)) <$> ps !! i
  ∧ cs !! (2 * i + 1)%nat = (λ p, new_code_cell (strip p.2)) <$> ps !! i.
Proof.
  induction ps as [|[h c] ps IH]; intros i; [done|].
  destruct i as [|i]; [done|].
  replace (2 * Datatypes.S i)%nat with (Datatypes.S (Datatypes.S (2 * i))) by lia.
  apply (IH i).
Qed.

Lemma cells_length (ps : list (pystr * pystr)) :
  length (flat_map (λ '(heading, content),
            [ new_markdown_cell (str "## " ++ strip heading);
              new_code_cell (strip content) ]) ps) = (2 * length ps)%nat.
Proof.
  induction ps as [|[h c] ps IH]; [done|].
  cbn [flat_map app length]. rewrite IH. lia.
Qed.

(** X10: The pairing of [write_ipython] drops no piece of the text: the list of
    texts always has an even length, so the two strided slices have the
    same length and the notebook has one cell for every text, a markdown
    cell for each text at an even position and a code cell for the text
    that follows it. *)
Theorem ipynb_cells_cover templ_fn rendered :
  let cell_texts := ipynb_name templ_fn :: re_split_heading rendered in
  length (ipynb_cells templ_fn rendered) = length cell_texts
  ∧ ∀ i heading content,
      cell_texts !! (2 * i)%nat = Some heading →
      cell_texts !! (2 * i + 1)%nat = Some content →
      ipynb_cells templ_fn rendered !! (2 * i)%nat
        = Some (new_markdown_cell (str "## " ++ strip heading))
      ∧ ipynb_cells templ_fn rendered !! (2 * i + 1)%nat
        = Some (new_code_cell (strip content)).
Proof.
  intros cell_texts. unfold ipynb_cells.
  change ([ipynb_name templ_fn] ++ re_split_heading rendered) with cell_texts.
  unfold slice2. rewrite slice_drop_last, slice_drop_first.
  destruct (re_split_from_odd rendered 0 []) as [k Hk].
  assert (Hlen : length cell_texts = (2 * k + 2)%nat).
  { unfold cell_texts, re_split_heading. simpl. rewrite Hk. lia. }
  split.
  - rewrite cells_length, length_zip.
    rewrite (every_second_length k), (every_second_length k).
    + lia.
    + rewrite length_drop. lia.
    + rewrite length_take. lia.
  - intros i heading content Hh Hc.
    assert (Hi : (2 * i + 1 < length cell_texts)%nat)
      by (apply lookup_lt_is_Some; by eexists).
    match goal with |- context [flat_map ?f ?ps] =>
      pose proof (cells_lookup ps i) as Hl; cbv zeta in Hl;
      destruct Hl as [H0 H1];
      assert (Hp : ps !! i = Some (heading, content))
    end.
    { apply lookup_zip_with_Some. exists heading, content. split; [done|].
      rewrite !every_second_lookup. split.
      - rewrite lookup_take_lt by lia. done.
      - rewrite lookup_drop. by replace (1 + 2 * i)%nat with (2 * i + 1)%nat by lia. }
    rewrite Hp in H0, H1. split; [exact H0|exact H1].
Qed.

Lemma re_split_from_plain s : ∀ cur,
  find s heading_mark = (-1)%Z → re_split_from 0 cur s = [cur ++ s].
Proof.
  induction s as [|c s IH]; intros cur Habs.
  - simpl. by rewrite app_nil_r.
  - rewrite find_absent in Habs.
    cbn [re_split_from]. unfold match_heading.
    destruct (startswith heading_mark (c :: s)) eqn:E.
    { apply startswith_spec in E as [post E]. by destruct (Habs [] post). }
    rewrite IH; [by rewrite <- app_assoc|].
    apply find_absent. intros pre post ->. by apply (Habs (c :: pre) post).
Qed.

(** X11: A rendered text without the heading mark gives a notebook of two
    cells: the heading made of the notebook name, and the whole text,
    stripped, as code. *)
Theorem ipynb_cells_no_heading templ_fn rendered :
  find rendered heading_mark = (-1)%Z →
  ipynb_cells templ_fn rendered
  = [ new_markdown_cell (str "## " ++ strip (ipynb_name templ_fn));
      new_code_cell (strip rendered) ].
Proof.
  intros Habs. unfold ipynb_cells, re_split_heading.
  by rewrite re_split_from_plain.
Qed.

Lemma line_rest_title title rest :
  nl ∉ title → line_rest (title ++ nl :: rest) = Some title.
Proof.
  induction title as [|c t IH]; intros Hnl; [reflexivity|].
  simpl; unfold chr_eqb.
  destruct (Ascii.eqb_spec c nl) as [->|_].
  - exfalso. apply Hnl. constructor.
  - rewrite IH; [done|]. intros H. apply Hnl. by constructor.
Qed.

Lemma re_split_from_skip s1 : ∀ s2 cur,
  re_split_from (length s1) cur (s1 ++ s2) = re_split_from 0 cur s2.
Proof. induction s1 as [|c s1 IH]; intros s2 cur; [done|]. simpl. apply IH. Qed.

Lemma no_mark_before c pre rest :
  find (c :: pre) heading_mark = (-1)%Z →
  startswith heading_mark (c :: pre ++ heading_mark ++ rest) = false.
Proof.
  intros Habs. rewrite find_absent in Habs.
  destruct (startswith _ _) eqn:E; [|done]. exfalso.
  apply startswith_spec in E as [post E].
  change heading_mark with ["#"; "#"; " "]%char in *.
  destruct pre as [|d [|e pre]]; simpl in E; [discriminate E|discriminate E|].
  injection E as -> -> -> E. by apply (Habs [] pre).
Qed.

Lemma re_split_from_first pre : ∀ cur title post,
  find pre heading_mark = (-1)%Z → nl ∉ title →
  re_split_from 0 cur (pre ++ heading_mark ++ title ++ nl :: post)
  = (cur ++ pre) :: title :: re_split_from 0 [] post.
Proof.
  induction pre as [|c pre IH]; intros cur title post Habs Hnl.
  - rewrite app_nil_r.
    change ([] ++ heading_mark ++ title ++ nl :: post)
      with ("#"%char :: ("#"%char :: " "%char :: title) ++ nl :: post).
    cbn [re_split_from]. unfold match_heading.
    change (startswith heading_mark
              ("#"%char :: ("#"%char :: " "%char :: title) ++ nl :: post)) with true.
    change (drop 3 ("#"%char :: ("#"%char :: " "%char :: title) ++ nl :: post))
      with (title ++ nl :: post).
    rewrite line_rest_title by done. do 2 f_equal.
    rewrite cons_middle, app_assoc.
    replace (3 + length title)%nat
      with (length (("#"%char :: " "%char :: title) ++ [nl])).
    + apply re_split_from_skip.
    + rewrite length_app. simpl. lia.
  - change ((c :: pre) ++ heading_mark ++ title ++ nl :: post)
      with (c :: pre ++ heading_mark ++ title ++ nl :: post).
    cbn [re_split_from]. unfold match_heading.
    rewrite no_mark_before by done.
    rewrite IH; [by rewrite <- app_assoc| |done].
    rewrite find_absent in Habs. apply find_absent.
    intros pre' post' ->. by apply (Habs (c :: pre') post').
Qed.

(** X12: Where the first heading is: in a text made of a part without the
    heading mark, the mark, a title without newline, a newline and the
    rest, [re.split] gives the first part, the title, and the split of
    the rest.  The mark is found anywhere in a line, not only at its
    start. *)
Theorem re_split_heading_first pre title post :
  find pre heading_mark = (-1)%Z → nl ∉ title →
  re_split_heading (pre ++ heading_mark ++ title ++ nl :: post)
  = pre :: title :: re_split_heading post.
Proof. intros Habs Hnl. unfold re_split_heading. by rewrite re_split_from_first. Qed.

Lemma replace_from_absent old new s :
  old ≠ [] → find s old = (-1)%Z → replace_from old new 0 s = s.
Proof.
  intros Hold. induction s as [|c s IH]; intros Habs.
  - by destruct old.
  - rewrite find_absent in Habs. destruct old as [|a old]; [done|].
    cbn [replace_from].
    destruct (startswith (a :: old) (c :: s)) eqn:E.
    { apply startswith_spec in E as [post E]. by destruct (Habs [] post). }
    f_equal. apply IH. apply find_absent.
    intros pre post ->. by apply (Habs (c :: pre) post).
Qed.

(** X13: The name of the notebook: for a template name that ends in [.py] and
    holds no other [.py], the notebook is written under the name with
    [.ipynb] in place of that ending. *)
Theorem ipynb_name_plain_stem stem :
  find stem (str ".py") = (-1)%Z →
  ipynb_name (stem ++ str ".py") = stem ++ str ".ipynb".
Proof.
  intros Habs. rewrite ipynb_name_py. f_equal.
  by apply replace_from_absent.
Qed.

End Notebook.

(** ** Whole runs *)

Section TreeRuns.

Context {S : Type} {Sys : System S} {Lib : Libraries}.
Variable set_order : list hashable → list hashable.

Lemma guarded_from_weaken prev cs : guarded cs → guarded_from prev cs.
Proof.
  destruct cs as [|c cs]; [done|]. unfold guarded. simpl.
  intros [Hc Hcs]. split; [|done]. by destruct (overwrites c).
Qed.

Lemma guarded_from_app prev cs1 cs2 :
  guarded_from prev cs1 → guarded cs2 → guarded_from prev (cs1 ++ cs2).
Proof.
  revert prev. induction cs1 as [|c cs1 IH]; intros prev H1 H2; simpl.
  - by apply guarded_from_weaken.
  - destruct H1 as [Hc H1]. split; [done|]. by apply IH.
Qed.

Lemma guarded_harmless prev cs :
  Forall (λ c, overwrites c = None) cs → guarded_from prev cs.
Proof.
  intros H. revert prev. induction H as [|c cs Hc _ IH]; intros prev; [done|].
  simpl. rewrite Hc. by split.
Qed.

Lemma guarded_bind {A B} (m : M S A) (f : A → M S B) :
  emits m (λ _ cs, guarded cs) →
  (∀ a, emits (f a) (λ _ cs, guarded cs)) →
  emits (m ≫= f) (λ _ cs, guarded cs).
Proof.
  intros Hm Hf. eapply emits_bind; [exact Hm|done|].
  intros a cs1 Hcs1. eapply emits_mono; [apply Hf|].
  intros r cs2 Hcs2. by apply guarded_from_app.
Qed.

Lemma quiet_guarded {A} (m : M S A) : quiet m → emits m (λ _ cs, guarded cs).
Proof. intros Hm. eapply emits_mono; [exact Hm|]. by intros r cs ->. Qed.

Lemma writer_calls_guarded f p c r cs : writer_calls f p c r cs → guarded cs.
Proof.
  unfold guarded. by intros [[-> _]|[[-> _]|[-> _]]].
Qed.

Lemma render_files_loop_guarded fns depends :
  emits (render_files_loop fns depends : M S _) (λ _ cs, guarded cs).
Proof.
  revert depends. induction fns as [|fn fns IH]; intros depends; simpl.
  - by apply emits_ret.
  - apply guarded_bind; [|done].
    eapply emits_mono; [apply render_file_emits|].
    intros r cs [[-> _]|(rendered & r' & Hw & _)]; [done|].
    by eapply writer_calls_guarded.
Qed.

Lemma render_subdir_guarded (render_sub : M S ()) sub_name :
  emits render_sub (λ _ cs, guarded cs) →
  emits (render_subdir render_sub sub_name) (λ _ cs, guarded cs).
Proof.
  intros Hsub. unfold render_subdir.
  eapply emits_bind; [apply syscall_emits|by intros e cs ->|].
  intros [] cs1 ->.
  eapply emits_bind; [apply syscall_emits|by intros e cs ->|].
  intros [] cs2 ->.
  assert (Hrest : emits (os_path_abspath (str ".") ≫= λ pwd,
                    os_chdir sub_name ≫= λ _, render_sub ≫= λ _, os_chdir pwd)
                    (λ _ cs, guarded cs)).
  { apply guarded_bind; [apply quiet_guarded, quiet_abspath|]. intros pwd.
    apply guarded_bind; [by apply emits_syscall|]. intros _.
    apply guarded_bind; [done|]. intros _.
    by apply emits_syscall. }
  eapply emits_mono; [exact Hrest|].
  intros r cs3 Hcs3.
  change (guarded_from None ([Cbackup sub_name; Cmkdir sub_name] ++ cs3)).
  by apply guarded_from_app.
Qed.

(** X14: Nothing is opened for writing and no directory is made without a
    backup of that very path by the call just before: in every run of
    [render], whether it returns or raises, each [open] and each [mkdir]
    comes right after [backup] of the same path. *)
Theorem render_backs_up_first t :
  emits (render set_order t : M S ()) (λ _ cs, guarded cs).
Proof.
  induction t as [n fns subs IH] using TemplateDir_tree_ind. simpl.
  apply guarded_bind; [apply render_files_loop_guarded|]. intros depends.
  apply guarded_bind.
  { eapply emits_mono; [apply link_dependencies_emits|].
    intros r cs [H _]. apply guarded_harmless.
    eapply Forall_impl; [exact H|]. intros [] [? ?]; naive_solver. }
  intros _.
  induction IH as [|s subs Hs _ IHsubs]; simpl.
  - by apply emits_ret.
  - apply guarded_bind; [|done]. by apply render_subdir_guarded.
Qed.

Lemma last_split_from_no_sep sep s : ∀ cur,
  sep ∉ cur → sep ∉ last_item (split_from sep cur s).
Proof.
  induction s as [|c s IH]; intros cur Hcur; simpl; [done|].
  unfold chr_eqb. destruct (Ascii.eqb_spec c sep) as [->|Hc].
  - rewrite last_item_cons by apply split_from_nonempty.
    apply IH. apply not_elem_of_nil.
  - apply IH. intros [H|H%list_elem_of_singleton]%elem_of_app; naive_solver.
Qed.

Lemma basename_no_slash p : "/"%char ∉ basename p.
Proof. apply last_split_from_no_sep, not_elem_of_nil. Qed.

(** X15: A path that [render] opens is the last component of the name of
    a template of the tree and holds no slash, whatever directories that
    name goes through: the path is relative and of one component.  Which
    file it reaches is left to the file system, which follows a symbolic
    link of that name. *)
Theorem render_opens_base_names t :
  emits (render set_order t : M S ()) (λ _ cs,
    Forall (λ c, ∀ p content, c = Copen_w p content →
              ("/"%char ∉ p) ∧ ∃ fn, fn ∈ all_files t ∧ p = basename fn) cs).
Proof.
  eapply emits_mono; [apply (render_opens set_order t)|].
  intros r cs [Hpre _]. apply Forall_forall. intros c Hc p content ->.
  assert (Hp : p ∈ basename <$> all_files t).
  { eapply elem_of_prefix; [|exact Hpre].
    apply list_elem_of_omap. by exists (Copen_w p content). }
  apply list_elem_of_fmap in Hp as (fn & -> & Hfn).
  split; [apply basename_no_slash|by exists fn].
Qed.

Lemma write_funcs_shell ext : write_funcs false ext = WShell ↔ ext = str "sh".
Proof.
  unfold write_funcs. repeat case_bool_decide; subst; naive_solver.
Qed.

Lemma file_calls_chmods fn {A} (r : res A) cs :
  file_calls fn r cs →
  follows chmod_of (basename <$> filter (λ fn, extension fn = str "sh") [fn]) r cs.
Proof.
  unfold follows.
  intros [[-> Hr]|(rendered & r' & Hw & Hr)]; simpl.
  { split; [apply prefix_nil|congruence]. }
  destruct Hw as [[-> Hr']|[[-> Hr']|[-> Hsh]]]; simpl.
  - split; [apply prefix_nil|congruence].
  - split; [apply prefix_nil|]. intros Hok.
    destruct Hr' as [Hr'|Hsh]; [congruence|].
    rewrite filter_cons_False, filter_nil; [done|].
    by rewrite <- write_funcs_shell.
  - apply write_funcs_shell in Hsh.
    rewrite filter_cons_True, filter_nil by done. done.
Qed.

Lemma render_files_loop_chmods fns depends :
  emits (render_files_loop fns depends : M S _)
    (follows chmod_of (basename <$> filter (λ fn, extension fn = str "sh") fns)).
Proof.
  revert depends. induction fns as [|fn fns IH]; intros depends; simpl.
  - apply emits_ret. by apply follows_nothing.
  - change (fn :: fns) with ([fn] ++ fns). rewrite filter_app, fmap_app.
    apply follows_bind; [|done].
    eapply emits_mono; [apply render_file_emits|].
    intros r cs. apply file_calls_chmods.
Qed.

Lemma render_subdir_chmods (render_sub : M S ()) sub_name e :
  emits render_sub (follows chmod_of e) →
  emits (render_subdir render_sub sub_name) (follows chmod_of e).
Proof.
  intros Hsub. unfold render_subdir.
  apply follows_bind_r; [by apply syscall_follows_none|]. intros _.
  apply follows_bind_r; [by apply syscall_follows_none|]. intros _.
  apply follows_bind_r; [apply quiet_follows, quiet_abspath|]. intros pwd.
  apply follows_bind_r; [by apply syscall_follows_none|]. intros _.
  apply follows_bind_l; [done|]. intros _.
  by apply syscall_follows_none.
Qed.

Lemma render_chmods t :
  emits (render set_order t : M S ())
    (follows chmod_of
       (basename <$> filter (λ fn, extension fn = str "sh") (all_files t))).
Proof.
  induction t as [n fns subs IH] using TemplateDir_tree_ind. simpl.
  rewrite filter_app, fmap_app.
  apply follows_bind; [apply render_files_loop_chmods|].
  intros depends.
  apply follows_bind_r.
  { apply link_dependencies_no. intros [] [? ?]; naive_solver. }
  intros _.
  induction IH as [|s subs Hs _ IHsubs]; simpl.
  - apply emits_ret. by apply follows_nothing.
  - rewrite filter_app, fmap_app. apply follows_bind; [|done].
    by apply render_subdir_chmods.
Qed.

(** X16: The files made executable are the shell scripts and no others: the
    [chmod] calls of a run of [render] are, in declared order, the last
    components of the names with extension [sh], all of them when the
    run returns and a first part of them when it raises. *)
Theorem render_chmods_shell_scripts t :
  emits (render set_order t : M S ())
    (follows chmod_of
       (basename <$> filter (λ fn, extension fn = str "sh") (all_files t))).
Proof. apply render_chmods. Qed.

(** X17: The layout of [get_layout] names no shell script: a run of
    [TemplateProject.do] makes no file executable. *)
Theorem do_makes_nothing_executable :
  emits (TemplateProject_do set_order : M S ()) (λ _ cs,
    ∀ p, Cchmod_plus_x p ∉ cs).
Proof.
  eapply emits_mono; [apply (render_chmods get_layout)|].
  intros r cs [Hpre _] p Hp.
  assert (Hnone : filter (λ fn, extension fn = str "sh") (all_files get_layout) = [])
    by (vm_compute; reflexivity).
  rewrite Hnone in Hpre. apply prefix_nil_inv in Hpre.
  assert (Hin : p ∈ omap chmod_of cs)
    by (apply list_elem_of_omap; by exists (Cchmod_plus_x p)).
  rewrite Hpre in Hin. by apply not_elem_of_nil in Hin.
Qed.

(** X18: Dependencies that are all strings whose last component exists in the
    directory of the process: the loop over them makes no call, changes
    nothing and returns. *)
Theorem link_dependencies_present deps (w : World S) :
  forallb (λ dep, match dep with
                  | HStr d => sys_exists (basename d) (sys w)
                  | _ => false
                  end) deps = true →
  link_dependencies deps w = (Ok (), w).
Proof.
  induction deps as [|dep deps IH]; simpl; [done|].
  intros [Hdep Hdeps]%andb_true_iff.
  destruct dep as [d| |]; [|done|done].
  rewrite bind_run, link_dependency_existing by done. by apply IH.
Qed.

End TreeRuns.

(** ** The claims on concrete inputs *)

Import Samples.

Lemma run_result {A B} (x : A * B) (a : A) : x.1 = a → x = (a, x.2).
Proof. destruct x as [a' b]. simpl. by intros ->. Qed.

Lemma Ok_inv {A} (r : res A) (P : A → Prop) :
  match r with Ok a => P a | Raise _ => True end → ∀ a, r = Ok a → P a.
Proof. by intros H a ->. Qed.

(** C1 (amended): for the rendered text of the scenario and the file
    [cluster.py] in notebook mode, the notebook writer is the one chosen,
    it builds three pairs of cells, the first one made of the heading
    [## cluster.ipynb] (the seed is the name with [.ipynb]) and an empty
    code cell, then [## Setup] with [import os] and [## Run] with
    [print(1)], and it backs up and writes [cluster.ipynb]. *)
Theorem write_ipython_cluster {S : Type} {Sys : System S} :
  write_funcs true (extension (str "cluster.py")) = WIpython
  ∧ ipynb_cells (str "cluster.py") cluster_rendered = cluster_cells
  ∧ emits (write_ipython (str "cluster.py") cluster_rendered : M S ())
      (writer_calls WIpython (str "cluster.ipynb")
         (Nbformat (new_notebook cluster_cells
            {| name := str "python3"; display_name := str "Python 3" |}))).
Proof.
  split; [by vm_compute|]. split; [by vm_compute|].
  apply (call_writer_emits WIpython (str "cluster.py") cluster_rendered).
Qed.

(** C1, as stated, fails: the cells are not the two pairs alone, and the
    first heading is not the name of the [.py] file. *)
Lemma write_ipython_cluster_not_two_pairs :
  ipynb_cells (str "cluster.py") cluster_rendered
  ≠ [ new_markdown_cell (str "## Setup"); new_code_cell (str "import os");
      new_markdown_cell (str "## Run"); new_code_cell (str "print(1)") ]
  ∧ head (ipynb_cells (str "cluster.py") cluster_rendered)
    ≠ Some (new_markdown_cell (str "## cluster.py")).
Proof. split; by vm_compute. Qed.

(** C5 holds on [README.md], which has no metadata block. *)
Lemma get_source_without_metadata_witness :
  get_source (Lib := lib) (str "README.md") Stub.fresh_world
  = (Ok (str "hello", str "project_templates/README.md"),
     with_meta Stub.fresh_world (str "project_templates/README.md") (YMap [])).
Proof.
  apply (get_source_without_metadata (Lib := lib)); by vm_compute.
Defined.

(** C3 (amended) holds on the template with a docstring, and on a
    template whose Meta section is empty, where the end marker starts on
    the last newline of the begin marker: the block is empty and [None]
    is stored. *)
Lemma get_source_with_metadata_witness :
  get_source (Lib := lib) (str "x.py") Stub.fresh_world
  = (Ok (doc_pre ++ end_str ++ doc_post, str "project_templates/x.py"),
     with_meta Stub.fresh_world (str "project_templates/x.py")
       (YMap [(str "depends", YSeq [YStr (str "a"); YStr (str "b")])]))
  ∧ get_source (Lib := MoreSamples.empty_lib) (str "empty.py") Stub.fresh_world
    = (Ok (doc_pre ++ end_str ++ doc_post, str "project_templates/empty.py"),
       with_meta Stub.fresh_world (str "project_templates/empty.py") YNone).
Proof.
  split.
  - exact (proj2 (proj2
      (get_source_with_metadata (Lib := lib) (str "x.py") doc_source
         (str "project_templates/x.py") (length doc_pre)
         (length (beg_str ++ doc_block)) Stub.fresh_world
         eq_refl eq_refl eq_refl))).
  - exact (proj2 (proj2
      (get_source_with_metadata (Lib := MoreSamples.empty_lib) (str "empty.py")
         MoreSamples.empty_section (str "project_templates/empty.py")
         (length doc_pre) 9 Stub.fresh_world
         eq_refl eq_refl eq_refl))).
Defined.

(** C3, as stated, fails on that template: the text returned is not the
    source without the whole span, and it contains the end marker. *)
Lemma get_source_keeps_end_marker :
  (get_source (Lib := lib) (str "x.py") Stub.fresh_world).1
    = Ok (doc_pre ++ end_str ++ doc_post, str "project_templates/x.py")
  ∧ doc_pre ++ end_str ++ doc_post ≠ doc_pre ++ doc_post
  ∧ contains (doc_pre ++ end_str ++ doc_post) end_str = true.
Proof. repeat split; by vm_compute. Qed.

(** C9 (amended) holds when one character precedes the begin marker. *)
Lemma get_source_unterminated_witness :
  get_source (Lib := lib) (str "unterminated.py") Stub.fresh_world
  = (Ok (str "##" ++ beg_str ++ str "todo", str "project_templates/unterminated.py"),
     with_meta Stub.fresh_world (str "project_templates/unterminated.py") YNone).
Proof.
  exact (proj2 (proj2
    (get_source_unterminated (Lib := lib) (str "unterminated.py")
       (str "project_templates/unterminated.py") [] "#"%char (beg_str ++ str "todo")
       Stub.fresh_world eq_refl eq_refl eq_refl eq_refl))).
Defined.

(** C9, as stated, fails when the begin marker opens the source: the
    end index [-1] then counts from the end, so the block handed to the
    decoder is not empty, a mapping is stored and not [None], and the text
    returned is the last character of the source, without the marker. *)
Lemma get_source_headless :
  find headless beg_str = 0%Z
  ∧ find (slice headless (Some 0%Z) None) end_str = (-1)%Z
  ∧ slice headless (Some (0 + len beg_str)%Z) (Some (-1)%Z)
    = str "depends:" ++ [nl] ++ str " - a" ++ [nl]
  ∧ get_source (Lib := lib) (str "headless.py") Stub.fresh_world
    = (Ok (str "X", str "project_templates/headless.py"),
       with_meta Stub.fresh_world (str "project_templates/headless.py")
         (YMap [(str "depends", YSeq [YStr (str "a")])]))
  ∧ contains (str "X") beg_str = false.
Proof. repeat split; by vm_compute. Qed.

(** C2 (amended) holds for a child that renders: the path saved is
    [/proj], and the working directory is changed back to it. *)
Lemma render_subdir_restores_on_return_witness :
  let w1 := ((backup (str "sub");; os_mkdir (str "sub")) Stub.fresh_world).2 in
  let w2 := (os_chdir (str "sub") w1).2 in
  let pwd := Posix.abspath (str ".") (sys w1) in
  let step := render_subdir (render (Lib := lib) Stub.insertion_order good_child)
                (str "sub") in
  pwd = str "/proj"
  ∧ match render (Lib := lib) Stub.insertion_order good_child w2 with
    | (Ok _, w3) =>
        step Stub.fresh_world = os_chdir pwd w3
        ∧ calls (step Stub.fresh_world).2 = calls w3 ++ [Cchdir pwd]
    | (Raise e, w3) => step Stub.fresh_world = (Raise e, w3)
    end.
Proof.
  intros w1 w2 pwd step. split; [by vm_compute|].
  refine (render_subdir_restores_on_return (Lib := lib) Stub.insertion_order
            good_child Stub.fresh_world w1 w2 _ _).
  - refine (run_result ((backup (str "sub");; os_mkdir (str "sub")) Stub.fresh_world)
              (Ok ()) _).
    vm_compute; reflexivity.
  - refine (run_result (os_chdir (str "sub") w1) (Ok ()) _).
    vm_compute; reflexivity.
Defined.

(** C2, as stated, fails: the render of the child [analysis] raises, and
    the run ends with that error in [/proj/analysis], not in [/proj]
    where it started; the last call is the [chdir] into the child. *)
Lemma render_failure_leaves_child_directory :
  let run := render (Lib := lib) Stub.insertion_order broken_tree Stub.fresh_world in
  run.1 = Raise TemplateNotFound
  ∧ Posix.cwd (sys Stub.fresh_world) = [str "proj"]
  ∧ Posix.cwd (sys run.2) = [str "proj"; str "analysis"]
  ∧ last (calls run.2) = Some (Cchdir (str "analysis")).
Proof. repeat split; by vm_compute. Qed.

(** C4, as stated, fails: two runs on the same tree and the same empty
    directory, which differ only in the order in which the interpreter
    visits the set [depends], make the two links in different orders, and
    the second run does not make them in declared order. *)
Lemma render_link_order_varies :
  let run order := render (Lib := lib) order linked_tree Stub.fresh_world in
  (run Stub.insertion_order).1 = Ok ()
  ∧ (run Stub.reverse_order).1 = Ok ()
  ∧ omap symlink_of (calls (run Stub.insertion_order).2)
    = [(str "../a", str "a"); (str "../b", str "b")]
  ∧ omap symlink_of (calls (run Stub.reverse_order).2)
    = [(str "../b", str "b"); (str "../a", str "a")]
  ∧ calls (run Stub.insertion_order).2 ≠ calls (run Stub.reverse_order).2.
Proof. repeat split; by vm_compute. Qed.

(** C6: linking the same dependency twice in the same directory.  The
    first turn makes the link; its target [/proj/meta.pandas.pickl] does
    not exist, so [os.path.exists] is still false for the name although a
    link is there, and the second turn calls [os.symlink] again, which
    raises [FileExistsError] instead of doing nothing. *)
Lemma link_dependency_twice_raises :
  let dep := HStr (str "meta.pandas.pickl") in
  let first := link_dependency dep analysis_world in
  let second := link_dependency dep first.2 in
  first.1 = Ok ()
  ∧ calls first.2 = [Csymlink (str "../meta.pandas.pickl") (str "meta.pandas.pickl")]
  ∧ Posix.lexists (str "meta.pandas.pickl") (sys first.2) = true
  ∧ Posix.exists_ (str "meta.pandas.pickl") (sys first.2) = false
  ∧ second.1 = Raise FileExistsError
  ∧ calls second.2
    = [ Csymlink (str "../meta.pandas.pickl") (str "meta.pandas.pickl");
        Csymlink (str "../meta.pandas.pickl") (str "meta.pandas.pickl") ].
Proof. repeat split; by vm_compute. Qed.

(** C8 holds on a node whose second file has no template: the run stops
    there with [TemplateNotFound]. *)
Lemma render_stops_at_failing_file_witness :
  let w1 := (render_files_loop (Lib := lib) gap_files_before [] Stub.fresh_world).2 in
  let w2 := (render_file (Lib := lib) gap_file [] w1).2 in
  render (Lib := lib) Stub.insertion_order
    (mkTemplateDir [] (gap_files_before ++ gap_file :: gap_files_after) [])
    Stub.fresh_world
  = (Raise TemplateNotFound, w2).
Proof.
  intros w1 w2.
  refine (proj1 (render_stops_at_failing_file (Lib := lib) Stub.insertion_order
                   [] gap_files_before gap_file gap_files_after []
                   Stub.fresh_world [] w1 TemplateNotFound w2 _ _)).
  - refine (run_result
              (render_files_loop (Lib := lib) gap_files_before [] Stub.fresh_world)
              (Ok []) _).
    vm_compute; reflexivity.
  - refine (run_result (render_file (Lib := lib) gap_file [] w1)
              (Raise TemplateNotFound) _).
    vm_compute; reflexivity.
Defined.

(** C7 holds when [run.sh] is written again where it exists: the backup
    moves the old file aside, and the calls are the backup, the open and
    the chmod, on [run.sh]. *)
Lemma writers_backup_before_open_witness :
  let run := call_writer WShell (str "run.sh") (str "echo") rerun_world in
  ∃ cs, calls run.2 = calls rerun_world ++ cs
        ∧ writer_calls WShell (str "run.sh") (Text (str "echo")) run.1 cs.
Proof.
  refine (proj1 (writers_backup_before_open (Sys := Posix.system)
                   WShell (str "run.sh") (str "echo") rerun_world _)).
  apply Ok_inv. vm_compute. reflexivity.
Defined.

(** ** The further properties on concrete inputs *)

(** A block that is not YAML: the error of the decoder ends
    [render_files], and the world is as before. *)
Lemma decode_error_reaches_render_files_witness :
  get_source (Lib := MoreSamples.lib) (str "bad.py") Stub.fresh_world
    = (Raise YAMLError, Stub.fresh_world)
  ∧ ∀ fns, render_files_loop (Lib := MoreSamples.lib) (str "bad.py" :: fns) []
             Stub.fresh_world
           = (Raise YAMLError, Stub.fresh_world).
Proof.
  apply (decode_error_reaches_render_files (Lib := MoreSamples.lib)
           (str "bad.py") MoreSamples.bad_source (str "project_templates/bad.py")
           YAMLError [] Stub.fresh_world); by vm_compute.
Defined.

(** The template with the unclosed block has the metadata [None]: it is
    loaded, and then not rendered. *)
Lemma metadata_not_a_container_raises_witness :
  let fn := str "unterminated.py" in
  let w1 := (Template_init (Lib := lib) fn false Stub.fresh_world).2 in
  render_file (Lib := lib) fn [] Stub.fresh_world = (Raise TypeError, w1)
  ∧ sys w1 = sys Stub.fresh_world ∧ calls w1 = calls Stub.fresh_world.
Proof.
  intros fn w1.
  pose (t := {| template_fn := fn;
                template := {| filename := str "project_templates/unterminated.py";
                               code := (str "##" ++ beg_str ++ str "todo" : @Code lib) |};
                meta := YNone;
                write_func := WPython |}).
  refine (metadata_not_a_container_raises (Lib := lib) fn [] Stub.fresh_world t w1 _ _).
  - refine (run_result (Template_init fn false Stub.fresh_world) (Ok t) _).
    reflexivity.
  - by left.
Defined.

(** The dependencies of [x.py] come after the one collected before. *)
Lemma render_files_loop_accumulates_witness :
  [HStr (str "z")] `prefix_of` [HStr (str "z"); HStr (str "a"); HStr (str "b")].
Proof.
  refine (render_files_loop_accumulates (Lib := lib) [str "x.py"] [HStr (str "z")]
            Stub.fresh_world [HStr (str "z"); HStr (str "a"); HStr (str "b")]
            (render_files_loop (Lib := lib) [str "x.py"] [HStr (str "z")]
               Stub.fresh_world).2 _).
  refine (run_result _ _ _). vm_compute; reflexivity.
Defined.

(** The dependencies of [x.py] are the same in [/proj] and in
    [/proj/analysis]. *)
Lemma render_files_loop_same_depends_witness :
  let run w := render_files_loop (Lib := lib) [str "x.py"] [] w in
  let deps := [HStr (str "a"); HStr (str "b")] in
  (run Stub.fresh_world).1 = Ok deps
  ∧ (run analysis_world).1 = Ok deps
  ∧ deps = deps.
Proof.
  intros run deps.
  assert (H1 : (run Stub.fresh_world).1 = Ok deps) by (vm_compute; reflexivity).
  assert (H2 : (run analysis_world).1 = Ok deps) by (vm_compute; reflexivity).
  split; [exact H1|]. split; [exact H2|].
  exact (render_files_loop_same_depends (Lib := lib) [str "x.py"] []
           Stub.fresh_world analysis_world deps (run Stub.fresh_world).2
           deps (run analysis_world).2
           (run_result _ _ H1) (run_result _ _ H2)).
Defined.

(** A text without heading gives one pair of cells. *)
Lemma ipynb_cells_no_heading_witness :
  ipynb_cells (str "a.py") (lines ["print(1)"]%string)
  = [ new_markdown_cell (str "## " ++ strip (ipynb_name (str "a.py")));
      new_code_cell (strip (lines ["print(1)"]%string)) ].
Proof. apply ipynb_cells_no_heading. by vm_compute. Defined.

(** A heading in the middle of a line is a heading. *)
Lemma re_split_heading_first_witness :
  re_split_heading (str "x = 1 " ++ heading_mark ++ str "Plot" ++ nl :: lines ["plot()"]%string)
  = str "x = 1 " :: str "Plot" :: re_split_heading (lines ["plot()"]%string).
Proof.
  apply re_split_heading_first; [by vm_compute|].
  apply (bool_decide_unpack _). by vm_compute.
Defined.

(** [cluster.py] becomes [cluster.ipynb]. *)
Lemma ipynb_name_plain_stem_witness :
  ipynb_name (str "cluster" ++ str ".py") = str "cluster" ++ str ".ipynb".
Proof. apply ipynb_name_plain_stem. by vm_compute. Defined.

(** In [/proj], where [run.sh] exists, the dependency [run.sh] asks for
    no link. *)
Lemma link_dependencies_present_witness :
  link_dependencies [HStr (str "run.sh")] rerun_world = (Ok (), rerun_world).
Proof.
  apply (link_dependencies_present [HStr (str "run.sh")] rerun_world).
  vm_compute; reflexivity.
Defined.

(** ** The model at work *)

Example find_example : find (str "abcabc") (str "ca") = 2%Z.
Proof. reflexivity. Qed.

Example find_missing_example : find (str "abcabc") (str "cb") = (-1)%Z.
Proof. reflexivity. Qed.

Example slice_negative : slice (str "abcdef") (Some 2%Z) (Some (-1)%Z) = str "cde".
Proof. reflexivity. Qed.

Example slice_crossed : slice (str "abcdef") (Some 4%Z) (Some 1%Z) = [].
Proof. reflexivity. Qed.

Example replace_example : replace (str "a.pyx.py") (str ".py") (str ".ipynb") = str "a.ipynbx.ipynb".
Proof. reflexivity. Qed.

Example split_example : split (str "tica/tica-plot.py") "."%char = [str "tica/tica-plot"; str "py"].
Proof. reflexivity. Qed.

Example basename_example : basename (str "tica/cluster/cluster.py") = str "cluster.py".
Proof. reflexivity. Qed.

Example re_split_example :
  re_split_heading (str "doc" ++ [nl] ++ str "## A b" ++ [nl] ++ str "x = 1" ++ [nl] ++ str "## tail")
  = [str "doc" ++ [nl]; str "A b"; str "x = 1" ++ [nl] ++ str "## tail"].
Proof. reflexivity. Qed.

Example strip_example : strip (str "  import os" ++ [nl]) = str "import os".
Proof. reflexivity. Qed.

Example decode_example :
  Stub.decode doc_block
  = Ok (YMap [(str "depends", YSeq [YStr (str "a"); YStr (str "b")])]).
Proof. by vm_compute. Qed.

(** A run of the whole layout in an empty directory ends normally, back
    in the directory where it began, having created the directories and
    opened the files in declared order. *)
Example do_in_empty_directory :
  let run := TemplateProject_do (Lib := layout_lib) Stub.insertion_order
               Stub.fresh_world in
  (run.1, Posix.cwd (sys run.2),
   omap mkdir_of (calls run.2), omap open_of (calls run.2))
  = (Ok (), [str "proj"], all_dirs get_layout, basename <$> all_files get_layout).
Proof. vm_compute. reflexivity. Qed.
